(** * Augi: conversation memory, keyword index, user profile, permission gate

    A shallow embedding of [src/memory_manager.py], [src/user_profile.py]
    and [src/permission_manager.py], with the gate that
    [src/file_manager.py] and [src/app_launcher.py] put before the
    operating system; the properties of them that the specification
    states (Part III), and further properties of the code (Part IV).

    Conventions of the embedding:
    - a Python [str] is a [string] of 8-bit characters; the functions of
      [PyStr] agree with Python's on ASCII text (characters above 127 are
      taken as caseless, non-space and non-alphabetic);
    - a Python [dict] whose iteration order is observable is an association
      list with unique keys in insertion order ([PyDict]); a [dict] that is
      only looked up is a [gmap];
    - a method that can raise returns a [res], or an [outcome] where a
      [TypeError] can come up; the clock, the iteration order of a Python
      [set] and the calls of the operating system are explicit arguments;
    - the conversations directory is held by the names of its entries, on
      a file system where names that differ are different files (POSIX,
      case-sensitive); a session id stands for the entry [id.json] when
      it is plain ([MemoryManager.plain_id]), and the file system can
      refuse a write or a removal ([MemoryManager.os]); what reading an
      entry raises is part of the entry ([file_text]). *)

From Stdlib Require Import QArith Ascii.
From stdpp Require Import gmap strings list fin_maps sorting.

(* ===================================================================== *)
(** * Part I: the embedding *)
(* ===================================================================== *)

(** ** Exceptions and results *)

Inductive exn : Set :=
| JSONDecodeError
| IOError
| AttributeError
| IndexError
| KeyError
| UnicodeDecodeError
| RecursionError.

#[global] Instance exn_eq_dec : EqDecision exn.
Proof. solve_decision. Defined.

Inductive res (A : Type) : Type :=
| Ok (a : A)
| Raise (e : exn).

Arguments Ok {A} a.
Arguments Raise {A} e.

#[global] Instance res_ret : MRet res := fun _ a => Ok a.
#[global] Instance res_bind : MBind res := fun _ _ f m =>
  match m with
  | Ok a => f a
  | Raise e => Raise e
  end.

(** [try: body except (caught): handler]. *)
Definition try_except {A} (body : res A) (caught : list exn) (handler : res A) : res A :=
  match body with
  | Ok a => Ok a
  | Raise e => if bool_decide (e ∈ caught) then handler else Raise e
  end.

(** ** Python strings *)

Module PyStr.

Definition is_upper (c : ascii) : bool :=
  let n := N_of_ascii c in (65 <=? n)%N && (n <=? 90)%N.

Definition is_lower (c : ascii) : bool :=
  let n := N_of_ascii c in (97 <=? n)%N && (n <=? 122)%N.

Definition is_alpha (c : ascii) : bool := is_upper c || is_lower c.

(** [str.isspace] on a character: TAB..CR, FS..US and the blank. *)
Definition is_space (c : ascii) : bool :=
  let n := N_of_ascii c in
  ((9 <=? n)%N && (n <=? 13)%N) || ((28 <=? n)%N && (n <=? 32)%N).

Definition lower_char (c : ascii) : ascii :=
  if is_upper c then ascii_of_N (N_of_ascii c + 32) else c.

Definition upper_char (c : ascii) : ascii :=
  if is_lower c then ascii_of_N (N_of_ascii c - 32) else c.

(** [s.lower()] *)
Fixpoint lower (s : string) : string :=
  match s with
  | EmptyString => EmptyString
  | String c s' => String (lower_char c) (lower s')
  end.

(** [s.capitalize()] *)
Definition capitalize (s : string) : string :=
  match s with
  | EmptyString => EmptyString
  | String c s' => String (upper_char c) (lower s')
  end.

(** [s.isalpha()]: non-empty and every character a letter. *)
Fixpoint all_chars (p : ascii → bool) (s : string) : bool :=
  match s with
  | EmptyString => true
  | String c s' => p c && all_chars p s'
  end.

Definition isalpha (s : string) : bool :=
  match s with
  | EmptyString => false
  | _ => all_chars is_alpha s
  end.

(** [needle in hay] *)
Fixpoint contains (needle hay : string) : bool :=
  if String.prefix needle hay then true
  else match hay with
       | EmptyString => false
       | String _ hay' => contains needle hay'
       end.

(** [hay.find(needle)]: the first index, or -1. *)
Fixpoint find_from (i : Z) (needle hay : string) : Z :=
  if String.prefix needle hay then i
  else match hay with
       | EmptyString => (-1)%Z
       | String _ hay' => find_from (i + 1)%Z needle hay'
       end.

Definition find (hay needle : string) : Z := find_from 0%Z needle hay.

Fixpoint drop (n : nat) (s : string) : string :=
  match n, s with
  | O, _ => s
  | S n', String _ s' => drop n' s'
  | S _, EmptyString => EmptyString
  end.

(** [s[:n]] for [n >= 0] *)
Fixpoint take (n : nat) (s : string) : string :=
  match n, s with
  | S n', String c s' => String c (take n' s')
  | _, _ => EmptyString
  end.

(** [s[i:]]; a negative [i] counts from the end. *)
Definition slice_from (s : string) (i : Z) : string :=
  if (i <? 0)%Z
  then drop (Z.to_nat (Z.max 0 (Z.of_nat (String.length s) + i))) s
  else drop (Z.to_nat i) s.

(** [s.split()]: the maximal runs of non-space characters. [cur] is the
    run being read. *)
Fixpoint split_ws_go (cur : string) (s : string) : list string :=
  match s with
  | EmptyString => if String.eqb cur "" then [] else [cur]
  | String c s' =>
      if is_space c
      then (if String.eqb cur "" then [] else [cur]) ++ split_ws_go "" s'
      else split_ws_go (cur +:+ String c "") s'
  end.

Definition split_ws (s : string) : list string := split_ws_go "" s.

(** [s.split(sep)] for a non-empty [sep] (every caller passes a literal):
    cut at the non-overlapping occurrences of [sep], left to right.
    [skip] counts the characters of a matched separator still to pass. *)
Fixpoint split_sep_go (sep : string) (skip : nat) (cur : string) (s : string)
  : list string :=
  match s with
  | EmptyString => [cur]
  | String c s' =>
      match skip with
      | S k => split_sep_go sep k cur s'
      | O =>
          if String.prefix sep s
          then cur :: split_sep_go sep (String.length sep - 1) "" s'
          else split_sep_go sep O (cur +:+ String c "") s'
      end
  end.

Definition split_sep (s sep : string) : list string := split_sep_go sep O "" s.

Fixpoint lstrip_with (p : ascii → bool) (s : string) : string :=
  match s with
  | EmptyString => EmptyString
  | String c s' => if p c then lstrip_with p s' else s
  end.

Definition strip_with (p : ascii → bool) (s : string) : string :=
  String.rev (lstrip_with p (String.rev (lstrip_with p s))).

(** [s.strip()] *)
Definition strip (s : string) : string := strip_with is_space s.

Fixpoint char_in (c : ascii) (chars : string) : bool :=
  match chars with
  | EmptyString => false
  | String d chars' => Ascii.eqb c d || char_in c chars'
  end.

(** [s.strip(chars)] *)
Definition strip_chars (s chars : string) : string :=
  strip_with (fun c => char_in c chars) s.

(** Truthiness of a string: non-empty. *)
Definition truthy (s : string) : bool := negb (String.eqb s "").

End PyStr.

(** ** Python list operations *)

Module PyList.

Section Sorted.
Context {A : Type} (key_le : A → A → bool).

(** [sorted(l, key=..., reverse=True)] is stable: items of equal key keep
    their order. [key_le y x] tells that the key of [y] is at most the key
    of [x]; [x] is put before the first such [y]. *)
Fixpoint insert_desc (x : A) (l : list A) : list A :=
  match l with
  | [] => [x]
  | y :: l' => if key_le y x then x :: l else y :: insert_desc x l'
  end.

Definition sorted_desc (l : list A) : list A := foldr insert_desc [] l.

End Sorted.

(** [l[:n]]; a negative [n] counts from the end. *)
Definition slice_to {A} (l : list A) (n : Z) : list A :=
  if (n <? 0)%Z then take (Z.to_nat (Z.of_nat (length l) + n)) l
  else take (Z.to_nat n) l.

End PyList.

(** ** Insertion-ordered dictionaries with string keys *)

Module PyDict.

Definition t (V : Type) : Type := list (string * V).

(** [d.get(k)] *)
Fixpoint get {V} (d : t V) (k : string) : option V :=
  match d with
  | [] => None
  | (k', v) :: d' => if String.eqb k' k then Some v else get d' k
  end.

(** [d.get(k, dflt)] *)
Definition get_default {V} (d : t V) (k : string) (dflt : V) : V :=
  match get d k with
  | Some v => v
  | None => dflt
  end.

(** [k in d] *)
Definition mem {V} (d : t V) (k : string) : bool :=
  match get d k with
  | Some _ => true
  | None => false
  end.

(** [d[k] = v]: a present key keeps its place, a new key goes last. *)
Fixpoint set {V} (d : t V) (k : string) (v : V) : t V :=
  match d with
  | [] => [(k, v)]
  | (k', v') :: d' =>
      if String.eqb k' k then (k', v) :: d' else (k', v') :: set d' k v
  end.

Definition keys {V} (d : t V) : list string := map fst d.

End PyDict.

(** ** JSON documents and text files *)

#[local] Unset Elimination Schemes.
Inductive json : Type :=
| JNull
| JBool (b : bool)
| JInt (n : Z)
| JStr (s : string)
| JList (l : list json)
| JDict (d : list (string * json)).
#[local] Set Elimination Schemes.

(** What [open] and [json.load] make of a file: the document that
    [json.dump] wrote (the library's round trip); a [JSONDecodeError], for
    text that is no JSON; or another exception: an [IOError] (the [OSError]
    of Python 3) for a file that cannot be opened, such as a directory or a
    file without permission, a [UnicodeDecodeError] for bytes that are no
    text, a [RecursionError] for a document nested too deep. *)
Inductive file_text : Type :=
| Parsed (j : json)
| Unparsable
| Raises (e : exn).

Definition json_load (f : file_text) : res json :=
  match f with
  | Parsed j => Ok j
  | Unparsable => Raise JSONDecodeError
  | Raises e => Raise e
  end.

(** [data.get(key, dflt)]: an [AttributeError] unless [data] is a dict. *)
Definition json_get (data : json) (key : string) (dflt : json) : res json :=
  match data with
  | JDict d => Ok (PyDict.get_default d key dflt)
  | _ => Raise AttributeError
  end.

(** ** Built-in operations on a value of any type

    A document read from a file can hold any value where the code expects
    a dict, a list or a string; the built-in operations then raise. *)

(** The exceptions of [exn], and [TypeError]. *)
Inductive py_exn : Set :=
| Std (e : exn)
| TypeError.

Inductive outcome (A : Type) : Type :=
| Return (a : A)
| Throw (e : py_exn).

Arguments Return {A} a.
Arguments Throw {A} e.

#[global] Instance outcome_ret : MRet outcome := fun _ a => Return a.
#[global] Instance outcome_bind : MBind outcome := fun _ _ f m =>
  match m with
  | Return a => f a
  | Throw e => Throw e
  end.

Definition lift {A} (r : res A) : outcome A :=
  match r with
  | Ok a => Return a
  | Raise e => Throw (Std e)
  end.

(** [try: body except (caught): handler], where a [TypeError] is not
    among the exceptions caught. *)
Definition try_catch {A} (body : outcome A) (caught : list exn)
    (handler : outcome A) : outcome A :=
  match body with
  | Return a => Return a
  | Throw (Std e) => if bool_decide (e ∈ caught) then handler else Throw (Std e)
  | Throw TypeError => Throw TypeError
  end.

Module PyValue.

(** [obj.get(key, dflt)] *)
Definition get (obj : json) (key : string) (dflt : json) : outcome json :=
  lift (json_get obj key dflt).

(** [for x in obj]: the items of a list, the characters of a string, the
    keys of a dict. *)
Definition iter (obj : json) : outcome (list json) :=
  match obj with
  | JList l => Return l
  | JStr s => Return (map (fun c => JStr (String c "")) (String.list_ascii_of_string s))
  | JDict d => Return (map (fun item => JStr (fst item)) d)
  | _ => Throw TypeError
  end.

(** [len(obj)] *)
Definition len (obj : json) : outcome nat :=
  match obj with
  | JList l => Return (length l)
  | JStr s => Return (String.length s)
  | JDict d => Return (length d)
  | _ => Throw TypeError
  end.

(** [obj.lower()] *)
Definition lower (obj : json) : outcome string :=
  match obj with
  | JStr s => Return (PyStr.lower s)
  | _ => Throw (Std AttributeError)
  end.

(** [obj[:n]] for [n >= 0]. Slicing a dict raises [dict_slice_error]:
    a [TypeError] before Python 3.12, a [KeyError] from then on. *)
Definition slice_to (dict_slice_error : py_exn) (n : nat) (obj : json) : outcome json :=
  match obj with
  | JStr s => Return (JStr (PyStr.take n s))
  | JList l => Return (JList (take n l))
  | JDict _ => Throw dict_slice_error
  | _ => Throw TypeError
  end.

(** Truthiness: [None], [False], 0 and the empty string, list and dict are
    false. *)
Definition truthy (obj : json) : bool :=
  match obj with
  | JNull => false
  | JBool b => b
  | JInt n => negb (n =? 0)%Z
  | JStr s => PyStr.truthy s
  | JList l => match l with [] => false | _ => true end
  | JDict d => match d with [] => false | _ => true end
  end.

(** [obj == s] for a string [s] *)
Definition eq_str (obj : json) (s : string) : bool :=
  match obj with
  | JStr s' => String.eqb s' s
  | _ => false
  end.

End PyValue.

Fixpoint foldlM_outcome {A B} (f : A → B → outcome A) (l : list B) (a : A) : outcome A :=
  match l with
  | [] => mret a
  | b :: l' => a' ← f a b; foldlM_outcome f l' a'
  end.

(** ** [class ConversationIndex] *)

Module ConversationIndex.

Record entry : Type := Entry {
  timestamp : string;
  message_count : nat;
  entry_keywords : list string
}.

(** [self.index]: the forward map ["conversations"] and the inverted map
    ["keywords"], whose iteration order the search observes. *)
Record index : Type := Index {
  conversations : gmap string entry;
  keywords : PyDict.t (list string)
}.

Definition empty : index := Index ∅ [].

(** The bucket update of one keyword: [setdefault] to the empty list, then
    append the session unless it is there. *)
Definition index_keyword (session_id : string) (kws : PyDict.t (list string))
    (keyword : string) : PyDict.t (list string) :=
  let kws1 := if PyDict.mem kws keyword then kws else PyDict.set kws keyword [] in
  let bucket := PyDict.get_default kws1 keyword [] in
  if bool_decide (session_id ∈@{list string} bucket) then kws1
  else PyDict.set kws1 keyword (bucket ++ [session_id]).

Definition add_conversation (idx : index) (session_id : string)
    (kws : list string) (ts : string) (count : nat) : index :=
  Index (<[session_id := Entry ts count kws]> (conversations idx))
        (fold_left (index_keyword session_id) kws (keywords idx)).

(** [matching_sessions[session_id] = matching_sessions.get(session_id, 0) + w].
    A score is a sum of the weights 1 and 0.5, which Python adds without
    rounding; it is a rational here. *)
Definition bump (w : Q) (matching : PyDict.t Q) (session_id : string) : PyDict.t Q :=
  PyDict.set matching session_id (PyDict.get_default matching session_id 0 + w)%Q.

Definition direct_match (idx : index) (keyword_lower : string)
    (matching : PyDict.t Q) : PyDict.t Q :=
  match PyDict.get (keywords idx) keyword_lower with
  | Some bucket => fold_left (bump 1) bucket matching
  | None => matching
  end.

Definition partial_step (keyword_lower : string) (matching : PyDict.t Q)
    (item : string * list string) : PyDict.t Q :=
  let '(indexed_keyword, bucket) := item in
  if PyStr.contains keyword_lower indexed_keyword
     || PyStr.contains indexed_keyword keyword_lower
  then fold_left (bump (1 # 2)) bucket matching
  else matching.

Definition partial_match (idx : index) (keyword_lower : string)
    (matching : PyDict.t Q) : PyDict.t Q :=
  fold_left (partial_step keyword_lower) (keywords idx) matching.

Definition score_keyword (idx : index) (matching : PyDict.t Q)
    (keyword : string) : PyDict.t Q :=
  let keyword_lower := PyStr.lower keyword in
  partial_match idx keyword_lower (direct_match idx keyword_lower matching).

(** The dictionary [matching_sessions] when the loop over the query ends. *)
Definition matching_sessions (idx : index) (kws : list string) : PyDict.t Q :=
  fold_left (score_keyword idx) kws [].

(** [sorted(matching_sessions.items(), key=lambda x: x[1], reverse=True)] *)
Definition by_score (y x : string * Q) : bool := Qle_bool (snd y) (snd x).

Definition search_by_keywords (idx : index) (kws : list string) : list string :=
  map fst (PyList.sorted_desc by_score (matching_sessions idx kws)).

(** The total score of a session in a search. *)
Definition score (idx : index) (kws : list string) (session_id : string) : Q :=
  PyDict.get_default (matching_sessions idx kws) session_id 0%Q.

End ConversationIndex.

(** ** [class MemoryManager] *)

Module MemoryManager.

(** One turn of the transcript, [{"role": ..., "content": ...}]. *)
Record message : Type := Message {
  role : string;
  content : string
}.

Definition message_json (m : message) : json :=
  JDict [("role", JStr (role m)); ("content", JStr (content m))].

Definition messages_json (history : list message) : json :=
  JList (map message_json history).

(** What the clock gives during a call: [datetime.now().isoformat()],
    [datetime.now().strftime("%Y%m%d_%H%M%S")], and the time a file written
    in the call gets as [st_mtime]. *)
Record instant : Type := Instant {
  isoformat : string;
  strftime_id : string;
  epoch : Z
}.

(** An entry of the conversations directory, by its name in the
    directory, with the modification time that [stat] gives: a file, or
    something that cannot be read as one (a directory of that name is an
    entry whose reading raises [IOError]). An entry on which [stat] fails,
    a dangling symbolic link, is not modelled. *)
Record dir_entry : Type := File {
  name : string;
  mtime : Z;
  text : file_text
}.

(** A session id is plain when [conversations_dir / f"{session_id}.json"]
    is the entry of that name in the conversations directory of a POSIX
    file system: the id is not empty, is ASCII without ['/'] and NUL, and
    the name fits the 255 bytes of a file name. With any other id the path
    leaves the directory, enters a subdirectory or is refused, and what a
    call does then depends on files that the model does not hold. *)
Definition plain_char (c : ascii) : bool :=
  let n := N_of_ascii c in (1 <=? n)%N && (n <=? 127)%N && negb (n =? 47)%N.

Definition plain_id (session_id : string) : bool :=
  PyStr.truthy session_id && (String.length session_id <=? 250)
  && PyStr.all_chars plain_char session_id.

(** The index file holds the dump that [_save_index] wrote, or any other
    text; the methods modelled here write and remove it and do not read
    it. *)
Inductive index_text : Type :=
| IndexText (idx : ConversationIndex.index)
| OtherText.

(** The manager with the files under [memory/]: the conversations
    directory is the list of its entries in the order [glob] yields them,
    a file that does not exist is [None]. *)
Record t : Type := Manager {
  conversations_dir : list dir_entry;
  profile_file : option file_text;
  current_session_file : option file_text;
  index_file : option index_text;
  index : ConversationIndex.index
}.

(** The files that the manager writes and removes. *)
Inductive path : Type :=
| ConversationFile (file_name : string)
| CurrentSessionFile
| ProfileFile
| IndexFile.

(** The file system during one call: whether it lets the call open a file
    for writing, and remove a file. A refusal is raised as [IOError]. *)
Record os : Type := OS {
  can_write : path → bool;
  can_unlink : path → bool
}.

(** What a call of [save_conversation] comes to: it returns the session
    id; or a write is refused and the exception leaves the call, with the
    manager as it is then; or the id is not plain, and the call is outside
    the model. *)
Inductive saved : Type :=
| Returned (session_id : string) (mm : t)
| Raised (e : exn) (mm : t)
| Outside.

Fixpoint read_file (dir : list dir_entry) (file_name : string) : option file_text :=
  match dir with
  | [] => None
  | f :: dir' =>
      if String.eqb (name f) file_name then Some (text f) else read_file dir' file_name
  end.

(** [open(path, 'w')] and a dump that the file system carries out, on the
    entry of name [file_name]: it is created or overwritten whole. *)
Fixpoint write_file (dir : list dir_entry) (file_name : string) (now : Z)
    (txt : file_text) : list dir_entry :=
  match dir with
  | [] => [File file_name now txt]
  | f :: dir' =>
      if String.eqb (name f) file_name then File file_name now txt :: dir'
      else f :: write_file dir' file_name now txt
  end.

(** [s.endswith(suffix)]: some tail of [s] is [suffix]. *)
Fixpoint endswith (s suffix : string) : bool :=
  String.eqb s suffix
  || match s with
     | EmptyString => false
     | String _ s' => endswith s' suffix
     end.

(** [conversations_dir.glob("*.json")] *)
Definition glob_json (dir : list dir_entry) : list dir_entry :=
  filter (fun f => Is_true (endswith (name f) ".json")) dir.

(** [file_path.stem] of a name that ends in [.json]: the name without that
    suffix, unless nothing stands before it. *)
Definition stem (file_name : string) : string :=
  if String.eqb file_name ".json" then file_name
  else PyStr.take (String.length file_name - 5) file_name.

(** Removing the entry of name [file_name]. *)
Definition unlink (file_name : string) (dir : list dir_entry) : list dir_entry :=
  filter (fun f => name f ≠ file_name) dir.

Definition important_words : list string :=
  [ "python"; "code"; "help"; "learn"; "project"; "question";
    "error"; "problem"; "solution"; "idea"; "discuss"; "explain";
    "how"; "what"; "why"; "when"; "where"; "about"; "like";
    "build"; "create"; "develop"; "design"; "plan"; "work" ].

(** [for i in range(len(words) - 1)]: the phrases of two adjacent words
    that pass the length test. *)
Fixpoint phrases (words : list string) : list string :=
  match words with
  | w1 :: (w2 :: _) as rest =>
      let phrase := w1 +:+ " " +:+ w2 in
      (if (5 <? String.length phrase) && (String.length phrase <? 50)
       then [phrase] else []) ++ phrases rest
  | _ => []
  end.

(** What one message adds to the set [keywords], in the order of the
    [add] calls. *)
Definition message_keywords (msg : message) : list string :=
  let content := PyStr.lower (content msg) in
  filter (fun word => Is_true (PyStr.contains word content)) important_words
  ++ phrases (PyStr.split_ws content).

Definition keyword_adds (messages : list message) : list string :=
  concat (map message_keywords messages).

Section SetOrder.

(** [list(keywords)]: the order in which a Python [set] is iterated is
    fixed by string hashes that change from process to process; it is an
    argument, applied to the sequence of [add] calls that built the set. *)
Variable set_order : list string → list string.

Definition _extract_keywords (messages : list message) : list string :=
  take 20 (set_order (keyword_adds messages)).

(** [save_conversation]. The conversation file is written first; then
    [add_conversation] updates the index in memory and [_save_index] writes
    the index file. A refused write raises where it stands: the first
    leaves the manager as it was, the second leaves the conversation file
    written and the index updated in memory only. *)
Definition save_conversation (sys : os) (now : instant)
    (conversation_history : list message) (session_id : option string) (mm : t)
  : saved :=
  let session_id :=
    match session_id with
    | Some s => if PyStr.truthy s then s else strftime_id now
    | None => strftime_id now
    end in
  let file_name := session_id +:+ ".json" in
  let conversation_data :=
    JDict [ ("timestamp", JStr (isoformat now));
            ("session_id", JStr session_id);
            ("messages", messages_json conversation_history);
            ("message_count", JInt (Z.of_nat (length conversation_history))) ] in
  if negb (plain_id session_id) then Outside
  else if negb (can_write sys (ConversationFile file_name)) then Raised IOError mm
  else
    let dir := write_file (conversations_dir mm) file_name (epoch now)
                 (Parsed conversation_data) in
    let keywords := _extract_keywords conversation_history in
    let idx := ConversationIndex.add_conversation (index mm) session_id keywords
                 (isoformat now) (length conversation_history) in
    if negb (can_write sys IndexFile)
    then Raised IOError
           {| conversations_dir := dir;
              profile_file := profile_file mm;
              current_session_file := current_session_file mm;
              index_file := index_file mm;
              index := idx |}
    else Returned session_id
           {| conversations_dir := dir;
              profile_file := profile_file mm;
              current_session_file := current_session_file mm;
              index_file := Some (IndexText idx);
              index := idx |}.

End SetOrder.

(** [None] is the "not found" result. For a plain [session_id] the path
    is the entry [session_id.json] of the conversations directory. *)
Definition load_conversation (mm : t) (session_id : string) : res (option json) :=
  match read_file (conversations_dir mm) (session_id +:+ ".json") with
  | None => Ok None
  | Some f =>
      try_except
        (data ← json_load f;
         messages ← json_get data "messages" (JList []);
         mret (Some messages))
        [JSONDecodeError; IOError]
        (Ok None)
  end.

Record summary : Type := Summary {
  summary_session_id : json;
  summary_timestamp : json;
  summary_message_count : json
}.

Definition newer (y x : dir_entry) : bool := (mtime y <=? mtime x)%Z.

(** The body of the [try] in [list_conversations]: [None] stands for the
    [continue] taken when the document is not a dict. *)
Definition read_summary (f : dir_entry) : res (option summary) :=
  data ← json_load (text f);
  match data with
  | JDict d =>
      mret (Some {| summary_session_id :=
                      PyDict.get_default d "session_id" (JStr (stem (name f)));
                    summary_timestamp := PyDict.get_default d "timestamp" JNull;
                    summary_message_count :=
                      PyDict.get_default d "message_count" (JInt 0) |})
  | _ => mret None
  end.

Fixpoint list_loop (files : list dir_entry) (conversations : list summary)
  : res (list summary) :=
  match files with
  | [] => mret conversations
  | f :: files' =>
      r ← try_except (read_summary f)
            [JSONDecodeError; IOError; AttributeError] (Ok None);
      list_loop files'
        (match r with
         | Some s => conversations ++ [s]
         | None => conversations
         end)
  end.

Definition list_conversations (mm : t) (limit : Z) : res (list summary) :=
  let conversation_files :=
    PyList.slice_to (PyList.sorted_desc newer (glob_json (conversations_dir mm))) limit in
  list_loop conversation_files [].

(** [for file_path in ...glob("*.json"): file_path.unlink()]: the entries
    are removed one by one; at the first that the file system refuses the
    loop is left by the exception ([false]), with the directory as it is
    then. *)
Fixpoint unlink_each (sys : os) (files dir : list dir_entry)
  : bool * list dir_entry :=
  match files with
  | [] => (true, dir)
  | f :: files' =>
      if can_unlink sys (ConversationFile (name f))
      then unlink_each sys files' (unlink (name f) dir)
      else (false, dir)
  end.

(** [if path.exists(): path.unlink()] raises. *)
Definition refused {A} (sys : os) (p : path) (file : option A) : bool :=
  match file with
  | Some _ => negb (can_unlink sys p)
  | None => false
  end.

(** [clear_memory]. Each [unlink] can raise; [except Exception] then
    returns [False], and what was removed before stays removed. At the end
    [ConversationIndex(self.index_file)] finds no index file and starts
    from the empty index. *)
Definition clear_memory (sys : os) (mm : t) (confirm : bool) : bool * t :=
  if negb confirm then (false, mm)
  else
    let '(removed, dir) :=
      unlink_each sys (glob_json (conversations_dir mm)) (conversations_dir mm) in
    let conversations_cleared :=
      {| conversations_dir := dir;
         profile_file := profile_file mm;
         current_session_file := current_session_file mm;
         index_file := index_file mm;
         index := index mm |} in
    if negb removed then (false, conversations_cleared)
    else if refused sys CurrentSessionFile (current_session_file mm)
    then (false, conversations_cleared)
    else if refused sys ProfileFile (profile_file mm)
    then (false,
          {| conversations_dir := dir;
             profile_file := profile_file mm;
             current_session_file := None;
             index_file := index_file mm;
             index := index mm |})
    else if refused sys IndexFile (index_file mm)
    then (false,
          {| conversations_dir := dir;
             profile_file := None;
             current_session_file := None;
             index_file := index_file mm;
             index := index mm |})
    else (true,
          {| conversations_dir := dir;
             profile_file := None;
             current_session_file := None;
             index_file := None;
             index := ConversationIndex.empty |}).

(** The dict that [get_conversation_summary] returns; [JNull] is [None]. *)
Record conversation_summary : Type := ConversationSummary {
  cs_session_id : string;
  cs_timestamp : json;
  cs_message_count : nat;
  cs_first_message : json;
  cs_last_response : json
}.

Section DictSlice.

(** What slicing a dict raises. *)
Variable dict_slice_error : py_exn.

(** One round of [for msg in messages] in [get_conversation_summary], on
    the pair [(first_user, last_assistant)]. *)
Definition summary_step (acc : json * json) (msg : json) : outcome (json * json) :=
  role ← PyValue.get msg "role" JNull;
  first_user ←
    (if PyValue.eq_str role "user" && negb (PyValue.truthy acc.1)
     then content ← PyValue.get msg "content" (JStr "");
          PyValue.slice_to dict_slice_error 100 content
     else mret acc.1);
  role ← PyValue.get msg "role" JNull;
  last_assistant ←
    (if PyValue.eq_str role "assistant"
     then content ← PyValue.get msg "content" (JStr "");
          PyValue.slice_to dict_slice_error 100 content
     else mret acc.2);
  mret (first_user, last_assistant).

Definition get_conversation_summary (mm : t) (session_id : string)
  : outcome (option conversation_summary) :=
  match read_file (conversations_dir mm) (session_id +:+ ".json") with
  | None => Return None
  | Some f =>
      try_catch
        (data ← lift (json_load f);
         messages ← PyValue.get data "messages" (JList []);
         items ← PyValue.iter messages;
         acc ← foldlM_outcome summary_step items (JNull, JNull);
         timestamp ← PyValue.get data "timestamp" JNull;
         count ← PyValue.len messages;
         mret (Some {| cs_session_id := session_id;
                       cs_timestamp := timestamp;
                       cs_message_count := count;
                       cs_first_message := acc.1;
                       cs_last_response := acc.2 |}))
        [JSONDecodeError; IOError]
        (Return None)
  end.

(** The dict that [search_conversations] appends for a match. *)
Record search_hit : Type := SearchHit {
  hit_session_id : json;
  hit_timestamp : json;
  hit_message_count : nat;
  hit_matched_content : json
}.

(** [for msg in messages]: the first message whose text holds the
    keyword. *)
Fixpoint first_match (keyword_lower : string) (items : list json)
  : outcome (option json) :=
  match items with
  | [] => mret None
  | msg :: items' =>
      content ← PyValue.get msg "content" (JStr "");
      text ← PyValue.lower content;
      if PyStr.contains keyword_lower text then mret (Some msg)
      else first_match keyword_lower items'
  end.

(** The statements of the [try] in [search_conversations] before the test
    of the limit: [results] after the file was read. *)
Definition search_file (keyword_lower : string) (f : dir_entry)
    (results : list search_hit) : outcome (list search_hit) :=
  data ← lift (json_load (text f));
  messages ← PyValue.get data "messages" (JList []);
  items ← PyValue.iter messages;
  found ← first_match keyword_lower items;
  match found with
  | Some msg =>
      sid ← PyValue.get data "session_id" (JStr (stem (name f)));
      timestamp ← PyValue.get data "timestamp" JNull;
      count ← PyValue.len messages;
      content ← PyValue.get msg "content" (JStr "");
      matched ← PyValue.slice_to dict_slice_error 100 content;
      mret (results ++ [ {| hit_session_id := sid;
                            hit_timestamp := timestamp;
                            hit_message_count := count;
                            hit_matched_content := matched |} ])
  | None => mret results
  end.

(** [for file_path in ...glob("*.json")]; the flag tells that the loop
    was left by [break]. *)
Fixpoint search_loop (keyword_lower : string) (limit : Z)
    (files : list dir_entry) (results : list search_hit)
  : outcome (list search_hit) :=
  match files with
  | [] => mret results
  | f :: files' =>
      match try_catch
              (results' ← search_file keyword_lower f results;
               mret (results', (limit <=? Z.of_nat (length results'))%Z))
              [JSONDecodeError; IOError]
              (mret (results, false))
      with
      | Return (results, true) => Return results
      | Return (results, false) => search_loop keyword_lower limit files' results
      | Throw e => Throw e
      end
  end.

Definition search_conversations (mm : t) (keyword : string) (limit : Z)
  : outcome (list search_hit) :=
  search_loop (PyStr.lower keyword) limit (glob_json (conversations_dir mm)) [].





End DictSlice.

End MemoryManager.

(** ** [class UserProfileManager] *)

(** [l[i]] for [i >= 0] *)
Definition list_index {A} (l : list A) (i : nat) : res A :=
  match l !! i with
  | Some a => Ok a
  | None => Raise IndexError
  end.

Fixpoint foldlM {A B} (f : A → B → res A) (l : list B) (a : A) : res A :=
  match l with
  | [] => mret a
  | b :: l' => a' ← f a b; foldlM f l' a'
  end.

Module UserProfileManager.

Import MemoryManager (message, role, content).

(** A field that holds a [set] in a fresh profile and a [list] in one read
    back from JSON. *)
Inductive collection : Type :=
| PySet (s : gset string)
| PyList (l : list string).

(** [set(c)] *)
Definition as_set (c : collection) : gset string :=
  match c with
  | PySet s => s
  | PyList l => list_to_set l
  end.

Record profile : Type := Profile {
  created : string;
  last_updated : string;
  preferred_name : option string;
  interests : collection;
  skills : collection;
  preferences : gmap string json;
  hobbies : collection;
  work_info : gmap string json;
  favorite_apps : list string;
  favorite_games : list string;
  commonly_used_files : list string;
  learning_notes : gmap string json
}.

Definition _create_empty_profile (now : string) : profile :=
  {| created := now;
     last_updated := now;
     preferred_name := None;
     interests := PySet ∅;
     skills := PySet ∅;
     preferences := ∅;
     hobbies := PySet ∅;
     work_info := ∅;
     favorite_apps := [];
     favorite_games := [];
     commonly_used_files := [];
     learning_notes := ∅ |}.

(** The dictionary [extracted]; a key that may be missing is an option. *)
Record extracted : Type := Extracted {
  extracted_interests : option (gset string);
  extracted_skills : option (gset string);
  extracted_preferences : option (gmap string json);
  extracted_mentions : option (gset string);
  extracted_preferred_name : option string
}.

Definition interest_keywords : list string :=
  [ "i like"; "i love"; "i enjoy"; "interested in"; "hobby";
    "passion"; "fascinated"; "enthusiast"; "fan of"; "into" ].

Definition skill_keywords : list string :=
  [ "i know"; "i can"; "i'm good at"; "expertise"; "skilled in";
    "experienced with"; "proficient"; "master"; "expert" ].

Definition name_phrases : list string :=
  [ "my name is "; "i am "; "i'm "; "call me "; "you can call me ";
    "people call me " ].

(** One round of [for phrase in name_phrases]. *)
Definition name_step (content content_lower : string) (found : option string)
    (phrase : string) : res (option string) :=
  if PyStr.contains phrase content_lower then
    let idx := (PyStr.find content_lower phrase + Z.of_nat (String.length phrase))%Z in
    word ← list_index (PyStr.split_ws (PyStr.slice_from content idx)) 0;
    let name_candidate := PyStr.strip_chars word ". ,!?" in
    if PyStr.truthy name_candidate && PyStr.isalpha name_candidate
       && (1 <? String.length name_candidate)
    then mret (Some (PyStr.capitalize name_candidate))
    else mret found
  else mret found.

(** One round of [for keyword in interest_keywords] (and of the loop over
    [skill_keywords], which has the same body). *)
Definition fact_step (content_lower : string) (facts : gset string)
    (keyword : string) : res (gset string) :=
  if PyStr.contains keyword content_lower then
    let parts := PyStr.split_sep content_lower keyword in
    if 1 <? length parts then
      part ← list_index parts 1;
      first ← list_index (PyStr.split_sep (PyStr.strip (PyStr.take 50 part)) ".") 0;
      let fact := PyStr.strip first in
      if PyStr.truthy fact && (2 <? String.length fact)
      then mret ({[fact]} ∪ facts)
      else mret facts
    else mret facts
  else mret facts.

(** [for i, word in enumerate(words)]: the word after each marker. *)
Fixpoint mention_words (words : list string) : list string :=
  match words with
  | word :: (next :: _) as rest =>
      (if bool_decide (word ∈ ["my"; "i've"; "i'm"]) then [next] else [])
      ++ mention_words rest
  | _ => []
  end.

Definition mention_step (content_lower : string) (mentions : gset string)
  : gset string :=
  if PyStr.contains "my" content_lower || PyStr.contains "i" content_lower
  then list_to_set (mention_words (PyStr.split_ws content_lower)) ∪ mentions
  else mentions.

(** The body of [if message.get("role") == "user":]. *)
Definition extract_user_turn (acc : extracted) (text : string) : res extracted :=
  let content := PyStr.strip text in
  let content_lower := PyStr.lower content in
  name ← foldlM (name_step content content_lower)
           name_phrases (extracted_preferred_name acc);
  ints ← foldlM (fact_step content_lower)
           interest_keywords (default ∅ (extracted_interests acc));
  skls ← foldlM (fact_step content_lower)
           skill_keywords (default ∅ (extracted_skills acc));
  mret {| extracted_interests := Some ints;
          extracted_skills := Some skls;
          extracted_preferences := extracted_preferences acc;
          extracted_mentions :=
            Some (mention_step content_lower (default ∅ (extracted_mentions acc)));
          extracted_preferred_name := name |}.

Definition extract_step (acc : extracted) (msg : message) : res extracted :=
  if String.eqb (role msg) "user" then extract_user_turn acc (content msg)
  else mret acc.

Definition extracted_init : extracted :=
  {| extracted_interests := Some ∅;
     extracted_skills := Some ∅;
     extracted_preferences := Some ∅;
     extracted_mentions := Some ∅;
     extracted_preferred_name := None |}.

(** The method reads its argument only: [self] is taken and not used. *)
Definition extract_from_conversation (self : profile)
    (conversation_history : list message) : res extracted :=
  foldlM extract_step conversation_history extracted_init.

(** [now] is [datetime.now().isoformat()]. *)
Definition update_profile (now : string) (self : profile)
    (extracted_info : extracted) : profile :=
  {| created := created self;
     last_updated := now;
     preferred_name :=
       match extracted_preferred_name extracted_info with
       | Some n => if PyStr.truthy n then Some n else preferred_name self
       | None => preferred_name self
       end;
     interests :=
       match extracted_interests extracted_info with
       | Some new => PySet (as_set (interests self) ∪ new)
       | None => interests self
       end;
     skills :=
       match extracted_skills extracted_info with
       | Some new => PySet (as_set (skills self) ∪ new)
       | None => skills self
       end;
     preferences :=
       match extracted_preferences extracted_info with
       | Some new => new ∪ preferences self
       | None => preferences self
       end;
     hobbies := hobbies self;
     work_info := work_info self;
     favorite_apps := favorite_apps self;
     favorite_games := favorite_games self;
     commonly_used_files := commonly_used_files self;
     learning_notes := learning_notes self |}.

(** A run of [update_profile] calls, each with its clock reading. *)
Definition update_all (self : profile) (calls : list (string * extracted)) : profile :=
  fold_left (fun p call => update_profile call.1 p call.2) calls self.

Definition add_interest (now : string) (self : profile) (interest : string) : profile :=
  {| created := created self;
     last_updated := now;
     preferred_name := preferred_name self;
     interests := PySet (as_set (interests self) ∪ {[interest]});
     skills := skills self;
     preferences := preferences self;
     hobbies := hobbies self;
     work_info := work_info self;
     favorite_apps := favorite_apps self;
     favorite_games := favorite_games self;
     commonly_used_files := commonly_used_files self;
     learning_notes := learning_notes self |}.

Definition add_skill (now : string) (self : profile) (skill : string) : profile :=
  {| created := created self;
     last_updated := now;
     preferred_name := preferred_name self;
     interests := interests self;
     skills := PySet (as_set (skills self) ∪ {[skill]});
     preferences := preferences self;
     hobbies := hobbies self;
     work_info := work_info self;
     favorite_apps := favorite_apps self;
     favorite_games := favorite_games self;
     commonly_used_files := commonly_used_files self;
     learning_notes := learning_notes self |}.

Definition set_preference (now : string) (self : profile) (key : string)
    (value : json) : profile :=
  {| created := created self;
     last_updated := now;
     preferred_name := preferred_name self;
     interests := interests self;
     skills := skills self;
     preferences := <[key := value]> (preferences self);
     hobbies := hobbies self;
     work_info := work_info self;
     favorite_apps := favorite_apps self;
     favorite_games := favorite_games self;
     commonly_used_files := commonly_used_files self;
     learning_notes := learning_notes self |}.

Section SetListing.

(** [list(s)] of a set [s], in the order of its iteration. *)
Variable listing : gset string → list string.

(** [if isinstance(c, set): c = list(c)] *)
Definition set_to_list (c : collection) : collection :=
  match c with
  | PySet s => PyList (listing s)
  | PyList l => PyList l
  end.

Definition to_json_serializable (self : profile) : profile :=
  {| created := created self;
     last_updated := last_updated self;
     preferred_name := preferred_name self;
     interests := set_to_list (interests self);
     skills := set_to_list (skills self);
     preferences := preferences self;
     hobbies := set_to_list (hobbies self);
     work_info := work_info self;
     favorite_apps := favorite_apps self;
     favorite_games := favorite_games self;
     commonly_used_files := commonly_used_files self;
     learning_notes := learning_notes self |}.

End SetListing.

(** [if isinstance(c, list): c = set(c)] *)
Definition list_to_set_field (c : collection) : collection :=
  match c with
  | PySet s => PySet s
  | PyList l => PySet (list_to_set l)
  end.

(** The profile that [from_json_data] leaves in [self.profile]. *)
Definition from_json_data (data : profile) : profile :=
  {| created := created data;
     last_updated := last_updated data;
     preferred_name := preferred_name data;
     interests := list_to_set_field (interests data);
     skills := list_to_set_field (skills data);
     preferences := preferences data;
     hobbies := list_to_set_field (hobbies data);
     work_info := work_info data;
     favorite_apps := favorite_apps data;
     favorite_games := favorite_games data;
     commonly_used_files := commonly_used_files data;
     learning_notes := learning_notes data |}.

End UserProfileManager.

(** ** [class PermissionManager] *)

Module PermissionManager.

Inductive PermissionLevel : Set :=
| DENY
| REQUIRE_CONFIRMATION
| ALLOW.

Inductive OperationType : Set :=
| FILE_READ
| FILE_WRITE
| FILE_DELETE
| APP_LAUNCH
| SYSTEM_COMMAND
| INTERNET_ACCESS.

(** [operation.value] *)
Definition value (operation : OperationType) : string :=
  match operation with
  | FILE_READ => "file_read"
  | FILE_WRITE => "file_write"
  | FILE_DELETE => "file_delete"
  | APP_LAUNCH => "app_launch"
  | SYSTEM_COMMAND => "system_command"
  | INTERNET_ACCESS => "internet_access"
  end.

(** Times are instants of one clock; a temporary grant carries its expiry. *)
Record t : Type := Manager {
  permissions : gmap string PermissionLevel;
  temp_permissions : gmap string (PermissionLevel * Z)
}.

Definition _set_default_permissions (self : t) : t :=
  {| permissions :=
       <[value FILE_READ := REQUIRE_CONFIRMATION]>
       (<[value FILE_WRITE := REQUIRE_CONFIRMATION]>
       (<[value FILE_DELETE := DENY]>
       (<[value APP_LAUNCH := REQUIRE_CONFIRMATION]>
       (<[value SYSTEM_COMMAND := DENY]> ∅))));
     temp_permissions := temp_permissions self |}.

(** [load_permissions]: the table of the config file when it exists and
    loads ([Some (Some table)]), the defaults when it is missing ([None])
    or fails to load ([Some None]). *)
Definition load_permissions (config : option (option (gmap string PermissionLevel)))
    (self : t) : t :=
  match config with
  | Some (Some table) =>
      {| permissions := table; temp_permissions := temp_permissions self |}
  | _ => _set_default_permissions self
  end.

(** [__init__] *)
Definition init (config : option (option (gmap string PermissionLevel))) : t :=
  load_permissions config {| permissions := ∅; temp_permissions := ∅ |}.

Definition expired (now : Z) (grant : string * (PermissionLevel * Z)) : Prop :=
  (grant.2.2 < now)%Z.

#[global] Instance expired_dec now grant : Decision (expired now grant).
Proof. unfold expired. apply _. Defined.

Definition _cleanup_expired_permissions (now : Z) (self : t) : t :=
  {| permissions := permissions self;
     temp_permissions := filter (fun grant => ¬ expired now grant) (temp_permissions self) |}.

Definition check_permission (now : Z) (self : t) (operation : OperationType)
  : PermissionLevel * t :=
  let self := _cleanup_expired_permissions now self in
  let op_name := value operation in
  match temp_permissions self !! op_name with
  | Some (perm, _) => (perm, self)
  | None => (default DENY (permissions self !! op_name), self)
  end.

(** [duration] is the grant's length on the clock's scale. *)
Definition grant_temporary_permission (now : Z) (self : t)
    (operation : OperationType) (duration : Z) : t :=
  {| permissions := permissions self;
     temp_permissions :=
       <[value operation := (ALLOW, (now + duration)%Z)]> (temp_permissions self) |}.

Definition set_permission (self : t) (operation : OperationType)
    (level : PermissionLevel) : t :=
  {| permissions := <[value operation := level]> (permissions self);
     temp_permissions := temp_permissions self |}.

(** [level.name] *)
Definition name (level : PermissionLevel) : string :=
  match level with
  | DENY => "DENY"
  | REQUIRE_CONFIRMATION => "REQUIRE_CONFIRMATION"
  | ALLOW => "ALLOW"
  end.

(** [PermissionLevel[v]]; [None] stands for the [KeyError]. *)
Definition level_of_name (v : json) : option PermissionLevel :=
  match v with
  | JStr s =>
      if String.eqb s "DENY" then Some DENY
      else if String.eqb s "REQUIRE_CONFIRMATION" then Some REQUIRE_CONFIRMATION
      else if String.eqb s "ALLOW" then Some ALLOW
      else None
  | _ => None
  end.

(** The text that [save_permissions] writes to the config file. *)
Definition save_permissions (self : t) : file_text :=
  Parsed (JDict (map (fun item => (item.1, JStr (name item.2)))
                   (map_to_list (permissions self)))).

(** [{k: PermissionLevel[v] for k, v in data.items()}]; [None] when an
    exception is raised on the way. *)
Fixpoint read_items (items : list (string * json))
    (table : gmap string PermissionLevel) : option (gmap string PermissionLevel) :=
  match items with
  | [] => Some table
  | (k, v) :: items' =>
      level ← level_of_name v;
      read_items items' (<[k := level]> table)
  end.

Definition read_table (data : json) : option (gmap string PermissionLevel) :=
  match data with
  | JDict d => read_items d ∅
  | _ => None
  end.

(** What [load_permissions] finds at [config_path]: no file, a file that
    fails to load, or a table. *)
Definition read_config (config : option file_text)
  : option (option (gmap string PermissionLevel)) :=
  match config with
  | None => None
  | Some f =>
      Some (match json_load f with
            | Ok data => read_table data
            | Raise _ => None
            end)
  end.

End PermissionManager.

(** ** [class FileManager] *)

Module FileManager.

Import PermissionManager.

Section WithOS.

(** The file system is the operating system's: a state [world] and the
    three calls the class makes, each giving its result or the text of the
    exception it raised. *)
Variable world : Type.
Variable os_read : string → world → string + string.
Variable os_write : string → string → world → world + string.
Variable os_remove : string → world → world + string.

(** [request_confirmation]: a callable that answers a prompt, or [None]. *)
Definition confirmation : Type := option (string → bool).

Definition read_file (now : Z) (pm : PermissionManager.t) (w : world)
    (file_path : string) (request_confirmation : confirmation)
  : string * PermissionManager.t :=
  let '(perm, pm) := check_permission now pm FILE_READ in
  let read :=
    match os_read file_path w with
    | inl content => content
    | inr e => "[ERROR] Failed to read file: " +:+ e
    end in
  match perm with
  | DENY => ("[ERROR] File reading is not permitted", pm)
  | REQUIRE_CONFIRMATION =>
      match request_confirmation with
      | Some ask =>
          if negb (ask ("Allow reading file: " +:+ file_path +:+ "?"))
          then ("[DENIED] User rejected file read permission", pm)
          else (read, pm)
      | None =>
          ("[ERROR] Confirmation required but no confirmation handler provided", pm)
      end
  | ALLOW => (read, pm)
  end.

Definition write_file (now : Z) (pm : PermissionManager.t) (w : world)
    (file_path content : string) (request_confirmation : confirmation)
  : bool * PermissionManager.t * world :=
  let '(perm, pm) := check_permission now pm FILE_WRITE in
  let write :=
    match os_write file_path content w with
    | inl w' => (true, pm, w')
    | inr _ => (false, pm, w)
    end in
  match perm with
  | DENY => (false, pm, w)
  | REQUIRE_CONFIRMATION =>
      match request_confirmation with
      | Some ask =>
          if negb (ask ("Allow writing to file: " +:+ file_path +:+ "?"))
          then (false, pm, w)
          else write
      | None => (false, pm, w)
      end
  | ALLOW => write
  end.

Definition delete_file (now : Z) (pm : PermissionManager.t) (w : world)
    (file_path : string) (request_confirmation : confirmation)
  : bool * PermissionManager.t * world :=
  let '(perm, pm) := check_permission now pm FILE_DELETE in
  let remove :=
    match os_remove file_path w with
    | inl w' => (true, pm, w')
    | inr _ => (false, pm, w)
    end in
  match perm with
  | DENY => (false, pm, w)
  | REQUIRE_CONFIRMATION =>
      match request_confirmation with
      | Some ask =>
          if negb (ask ("Delete file: " +:+ file_path +:+ "?"))
          then (false, pm, w)
          else remove
      | None => (false, pm, w)
      end
  | ALLOW => remove
  end.

End WithOS.

End FileManager.

(** ** [class AppLauncher] *)

Module AppLauncher.

Import PermissionManager.

Section WithOS.

(** [subprocess.Popen] of an argument list and of a shell command: the
    state after the process was started, or the text of the exception. *)
Variable world : Type.
Variable os_popen : list string → world → world + string.
Variable os_shell : string → world → world + string.

(** The length of a minute on the scale of the clock. *)
Variable minute : Z.

(** [now] is the clock at the check, [grant_now] the clock when the
    temporary permission is granted. *)
Definition launch_app (now grant_now : Z) (pm : PermissionManager.t) (w : world)
    (app_path : string) (args : option (list string))
    (request_confirmation : FileManager.confirmation)
  : bool * PermissionManager.t * world :=
  let '(perm, pm) := check_permission now pm APP_LAUNCH in
  let cmd :=
    match args with
    | Some (a :: rest) => app_path :: a :: rest
    | _ => [app_path]
    end in
  let launch (pm : PermissionManager.t) :=
    match os_popen cmd w with
    | inl w' => (true, pm, w')
    | inr _ => (false, pm, w)
    end in
  match perm with
  | DENY => (false, pm, w)
  | REQUIRE_CONFIRMATION =>
      match request_confirmation with
      | Some ask =>
          if negb (ask ("Allow launching: " +:+ app_path +:+ "?"))
          then (false, pm, w)
          else launch pm
      | None =>
          launch (grant_temporary_permission grant_now pm APP_LAUNCH (5 * minute))
      end
  | ALLOW => launch pm
  end.

(** [platform] is [sys.platform]. *)
Definition launch_by_name (platform : string) (now : Z) (pm : PermissionManager.t)
    (w : world) (app_name : string) (request_confirmation : FileManager.confirmation)
  : bool * PermissionManager.t * world :=
  if negb (String.eqb platform "win32") then (false, pm, w)
  else
    let '(perm, pm) := check_permission now pm APP_LAUNCH in
    let launch :=
      match os_shell ("start " +:+ app_name) w with
      | inl w' => (true, pm, w')
      | inr _ => (false, pm, w)
      end in
    match perm with
    | DENY => (false, pm, w)
    | REQUIRE_CONFIRMATION =>
        match request_confirmation with
        | Some ask =>
            if negb (ask ("Allow launching: " +:+ app_name +:+ "?"))
            then (false, pm, w)
            else launch
        | None => (false, pm, w)
        end
    | ALLOW => launch
    end.

End WithOS.

End AppLauncher.

(* ===================================================================== *)
(** * Part II: the vocabulary of the properties, and example data *)
(* ===================================================================== *)

(** ** Order *)

(** [a] may stand before [b] in a list sorted by falling key. *)
Definition precedes {A} (key_le : A → A → bool) (a b : A) : Prop :=
  key_le b a = true.

(** ** The keyword index *)

Section IndexVocabulary.
Import ConversationIndex.

(** Session [sid] is in the bucket of keyword [k]. *)
Definition in_bucket (kws : PyDict.t (list string)) (k sid : string) : Prop :=
  ∃ bucket, PyDict.get kws k = Some bucket ∧ sid ∈ bucket.

(** Keyword [k] is in the current keyword set of [sid] in the forward map. *)
Definition has_keyword (idx : index) (sid k : string) : Prop :=
  ∃ e, conversations idx !! sid = Some e ∧ k ∈ entry_keywords e.

(** The states of the index: the empty one and what [add_conversation]
    makes of a state. *)
Inductive reachable : index → Prop :=
| reachable_empty : reachable empty
| reachable_add idx sid kws ts n :
    reachable idx → reachable (add_conversation idx sid kws ts n).

(** A session re-added with another keyword set. *)
Definition stale_index : index :=
  add_conversation (add_conversation empty "s" ["a"] "t1" 1) "s" ["b"] "t2" 1.

End IndexVocabulary.

(** ** Scores *)

Section ScoreVocabulary.
Import ConversationIndex.
Local Open Scope Q_scope.

(** The score a dictionary of scores gives a session. *)
Definition score_in (m : PyDict.t Q) (s : string) : Q := PyDict.get_default m s 0.

(** How often [s] is listed in a bucket (once at most in a bucket that
    [add_conversation] built). *)
Definition occurrences (s : string) (bucket : list string) : nat :=
  length (filter (eq s) bucket).

Definition hits (n : nat) : Q := inject_Z (Z.of_nat n).

(** The bidirectional substring test of the partial match. *)
Definition partial_test (q indexed_keyword : string) : bool :=
  PyStr.contains q indexed_keyword || PyStr.contains indexed_keyword q.

(** What the exact bucket of [q] gives session [s]: 1 for each listing. *)
Definition exact_part (kws : PyDict.t (list string)) (q s : string) : Q :=
  match PyDict.get kws q with
  | Some bucket => hits (occurrences s bucket) * 1
  | None => 0
  end.

(** What the buckets that pass the substring test give session [s]:
    1/2 for each listing in each of them. *)
Fixpoint partial_part (kws : PyDict.t (list string)) (q s : string) : Q :=
  match kws with
  | [] => 0
  | (ik, bucket) :: kws' =>
      (if partial_test q ik then hits (occurrences s bucket) * (1 # 2) else 0)
      + partial_part kws' q s
  end.

(** What one query keyword contributes to the score of [s]. *)
Definition contribution (idx : index) (keyword s : string) : Q :=
  exact_part (keywords idx) (PyStr.lower keyword) s
  + partial_part (keywords idx) (PyStr.lower keyword) s.

Fixpoint total_contribution (idx : index) (kws : list string) (s : string) : Q :=
  match kws with
  | [] => 0
  | keyword :: kws' => contribution idx keyword s + total_contribution idx kws' s
  end.

(** The index of the scoring example: bucket ["python programming"] holds
    [A], bucket ["python"] holds [B]. *)
Definition python_index : index :=
  Index ∅ [("python programming", ["A"]); ("python", ["B"])].

End ScoreVocabulary.

(** ** The session store *)

Section StoreVocabulary.
Import MemoryManager.

(** The id under which [save_conversation] stores: the caller's unless it
    is missing or empty, then one made from the clock. *)
Definition stored_id (now : instant) (session_id : option string) : string :=
  match session_id with
  | Some s => if PyStr.truthy s then s else strftime_id now
  | None => strftime_id now
  end.

(** The document that [save_conversation] dumps. *)
Definition stored_record (now : instant) (session_id : string)
    (conversation_history : list message) : json :=
  JDict [ ("timestamp", JStr (isoformat now));
          ("session_id", JStr session_id);
          ("messages", messages_json conversation_history);
          ("message_count", JInt (Z.of_nat (length conversation_history))) ].

(** The file system lets a save under [session_id] write the conversation
    file and the index file. *)
Definition permits (sys : os) (session_id : string) : Prop :=
  can_write sys (ConversationFile (session_id +:+ ".json")) = true ∧
  can_write sys IndexFile = true.

(** A file system that refuses nothing, and one that refuses everything. *)
Definition willing : os :=
  {| can_write := fun _ => true; can_unlink := fun _ => true |}.


(** Reading the entry raises nothing, or what [list_conversations]
    catches. *)
Definition listable (f : dir_entry) : Prop :=
  ∀ e, json_load (text f) = Raise e → e ∈ [JSONDecodeError; IOError; AttributeError].

(** A valid record: a file whose text is a JSON dict, with the summary
    that the listing makes of it. *)
Definition summary_of (f : dir_entry) : option summary :=
  match text f with
  | Parsed (JDict d) =>
      Some {| summary_session_id :=
                PyDict.get_default d "session_id" (JStr (stem (name f)));
              summary_timestamp := PyDict.get_default d "timestamp" JNull;
              summary_message_count := PyDict.get_default d "message_count" (JInt 0) |}
  | _ => None
  end.

Definition empty_manager : MemoryManager.t :=
  {| conversations_dir := [];
     profile_file := None;
     current_session_file := None;
     index_file := None;
     index := ConversationIndex.empty |}.

Definition noon : instant :=
  {| isoformat := "2024-05-01T12:00:00";
     strftime_id := "20240501_120000";
     epoch := 1714564800 |}.

Definition hiking : list message :=
  [Message "user" "I like hiking"; Message "assistant" "Nice!"].

(** The directory of the listing example: ten valid records and, newest
    of all, one file cut short. *)
Definition valid_record (sid : string) (time : Z) : dir_entry :=
  File (sid +:+ ".json") time
    (Parsed (JDict [ ("timestamp", JStr "2024-05-01T12:00:00");
                     ("session_id", JStr sid);
                     ("messages", JList []);
                     ("message_count", JInt 0) ])).

Definition eleven_files : MemoryManager.t :=
  {| conversations_dir :=
       [ valid_record "s0" 0; valid_record "s1" 1; valid_record "s2" 2;
         valid_record "s3" 3; valid_record "s4" 4; valid_record "s5" 5;
         valid_record "s6" 6; valid_record "s7" 7; valid_record "s8" 8;
         valid_record "s9" 9; File "cut.json" 10 Unparsable ];
     profile_file := None;
     current_session_file := None;
     index_file := None;
     index := ConversationIndex.empty |}.

End StoreVocabulary.

(** ** Keywords *)

Section KeywordVocabulary.
Import MemoryManager.

Definition not_upper (c : ascii) : bool := negb (PyStr.is_upper c).

(** What is asked of the iteration order of a set built by the calls
    [add(x)] for [x] in [adds]: each member once, and nothing else. *)
Definition set_iteration (set_order : list string → list string) : Prop :=
  ∀ adds, NoDup (set_order adds) ∧ ∀ x, x ∈ set_order adds ↔ x ∈ adds.

(** The distinct strings of [adds], each at its first place. *)
Fixpoint first_seen (seen adds : list string) : list string :=
  match adds with
  | [] => []
  | x :: adds' =>
      if bool_decide (x ∈ seen) then first_seen seen adds'
      else x :: first_seen (x :: seen) adds'
  end.

(** [k] is a topic word that occurs in the text of a message. *)
Definition vocabulary_keyword (messages : list message) (k : string) : Prop :=
  k ∈ important_words ∧
  ∃ msg, msg ∈ messages ∧ PyStr.contains k (PyStr.lower (content msg)) = true.

(** [k] is made of two adjacent words of the text of a message, and is 6
    to 49 characters long. *)
Definition two_word_phrase (messages : list message) (k : string) : Prop :=
  ∃ msg i w1 w2,
    msg ∈ messages ∧
    PyStr.split_ws (PyStr.lower (content msg)) !! i = Some w1 ∧
    PyStr.split_ws (PyStr.lower (content msg)) !! S i = Some w2 ∧
    k = w1 +:+ " " +:+ w2 ∧
    6 ≤ String.length k ≤ 49.

(** An iteration order that differs from the order of encounter. *)
Definition reversed (adds : list string) : list string := reverse (remove_dups adds).

Definition alphabet : list message :=
  [ Message "user"
      "aaa bbb ccc ddd eee fff ggg hhh iii jjj kkk lll mmm nnn ooo ppp qqq rrr sss ttt uuu vvv" ].

End KeywordVocabulary.

(** ** The user profile *)

Section ProfileVocabulary.
Import MemoryManager UserProfileManager.

(** A call whose extraction found no name. *)
Definition nameless (call : string * extracted) : Prop :=
  extracted_preferred_name call.2 = None.

(** The texts of the user's turns, in order. *)
Fixpoint user_texts (history : list message) : list string :=
  match history with
  | [] => []
  | msg :: history' =>
      if String.eqb (role msg) "user" then content msg :: user_texts history'
      else user_texts history'
  end.

Definition greeting_1 : list message :=
  [ Message "user" "My name is Bob. I like long walks";
    Message "assistant" "Hello Bob" ].

Definition greeting_2 : list message :=
  [ Message "assistant" "Welcome back";
    Message "user" "My name is Bob. I like long walks" ].

End ProfileVocabulary.

(** ** The permission gate *)

Section PermissionVocabulary.
Import PermissionManager.

(** A manager whose only grant has run out. *)
Definition lapsed : PermissionManager.t :=
  grant_temporary_permission 0 (init None) INTERNET_ACCESS 300.

End PermissionVocabulary.

(** ** Further vocabulary: the search *)

Section SearchVocabulary.
Import ConversationIndex.

(** Query keyword [q], lowered, is a substring of the key of a bucket that
    lists [sid], or contains that key. *)
Definition matched_by (kws : PyDict.t (list string)) (q sid : string) : Prop :=
  ∃ indexed_keyword bucket,
    (indexed_keyword, bucket) ∈ kws ∧
    partial_test (PyStr.lower q) indexed_keyword = true ∧
    sid ∈ bucket.

(** The keys of the inverted map are distinct and no bucket lists a
    session twice. *)
Definition tidy (kws : PyDict.t (list string)) : Prop :=
  NoDup (PyDict.keys kws) ∧
  ∀ k bucket, PyDict.get kws k = Some bucket → NoDup bucket.

End SearchVocabulary.

(** ** Further vocabulary: the session store *)

Section RecallVocabulary.
Import MemoryManager.


End RecallVocabulary.

(** ** Further vocabulary: the manager over time *)

Section ManagerVocabulary.
Import MemoryManager.








End ManagerVocabulary.

(** ** Further vocabulary: index and store together *)

Section ConsistencyVocabulary.
Import MemoryManager.


End ConsistencyVocabulary.

(** ** Further vocabulary: the search of the transcripts *)

Section TextSearchVocabulary.
Import MemoryManager.

(** The text of message [m] holds [keyword_lower], whatever the case of
    the text. *)
Definition mentions (keyword_lower : string) (m : message) : bool :=
  PyStr.contains keyword_lower (PyStr.lower (content m)).

(** What a search for [keyword_lower] makes of one file: nothing of a file
    whose reading raises what the search catches (text that is no JSON, a
    file that cannot be opened); of the record of a conversation, the hit
    for the first message that holds the keyword, if there is one. *)
Inductive file_answer (keyword_lower : string) (f : dir_entry)
  : option search_hit → Prop :=
| answer_skipped e :
    json_load (text f) = Raise e → e ∈ [JSONDecodeError; IOError] →
    file_answer keyword_lower f None
| answer_record d M :
    text f = Parsed (JDict d) →
    PyDict.get d "messages" = Some (messages_json M) →
    file_answer keyword_lower f
      (match List.find (mentions keyword_lower) M with
       | Some m =>
           Some {| hit_session_id :=
                     PyDict.get_default d "session_id" (JStr (stem (name f)));
                   hit_timestamp := PyDict.get_default d "timestamp" JNull;
                   hit_message_count := length M;
                   hit_matched_content := JStr (PyStr.take 100 (content m)) |}
       | None => None
       end).

(** A JSON document that is an object. *)
Definition is_dict (j : json) : bool :=
  match j with
  | JDict _ => true
  | _ => false
  end.

(** A directory with one conversation and, after it, a file that holds the
    JSON document [[]]. *)
Definition with_list_file : MemoryManager.t :=
  {| conversations_dir :=
       [ File "s1.json" 1
           (Parsed (JDict [ ("session_id", JStr "s1");
                            ("messages", messages_json hiking) ]));
         File "s2.json" 2 (Parsed (JList [])) ];
     profile_file := None;
     current_session_file := None;
     index_file := None;
     index := ConversationIndex.empty |}.

(** A directory with one conversation, a file cut short and an entry that
    cannot be opened. *)
Definition mixed_files : MemoryManager.t :=
  {| conversations_dir :=
       [ File "s1.json" 1 (Parsed (stored_record noon "s1" hiking));
         File "cut.json" 2 Unparsable;
         File "dir.json" 3 (Raises IOError) ];
     profile_file := None;
     current_session_file := None;
     index_file := None;
     index := ConversationIndex.empty |}.

End TextSearchVocabulary.

(** ** Further vocabulary: the profile *)

Section ProfileMoreVocabulary.
Import UserProfileManager.

(** A call of [update_profile] whose extraction says nothing on the
    preference [key]. *)
Definition silent_on (key : string) (call : string * extracted) : Prop :=
  match extracted_preferences call.2 with
  | Some new => new !! key = None
  | None => True
  end.

(** The three collections of the profile are sets, as in a fresh profile
    and after every merge. *)
Definition set_valued (p : profile) : Prop :=
  (∃ s, interests p = PySet s) ∧ (∃ s, skills p = PySet s) ∧
  (∃ s, hobbies p = PySet s).

(** A fresh profile with one interest. *)
Definition chess_player : profile :=
  add_interest "t1" (_create_empty_profile "t0") "chess".

End ProfileMoreVocabulary.

(** ** Further vocabulary: permissions *)

Section PermissionMoreVocabulary.
Import PermissionManager.

(** No temporary grant for [op] runs at [now]. *)
Definition no_live_grant (now : Z) (self : PermissionManager.t) (op : OperationType)
  : Prop :=
  ∀ perm expiry,
    temp_permissions self !! value op = Some (perm, expiry) → (expiry < now)%Z.

(** A config file with one level misspelt. *)
Definition misspelt_config : file_text :=
  Parsed (JDict [ ("file_read", JStr "ALLOW"); ("file_delete", JStr "deny") ]).

End PermissionMoreVocabulary.

(** ** Further vocabulary: the gate before the operating system *)

Section GateVocabulary.
Import PermissionManager.

(** No one says yes: there is no confirmation handler, or it answers no to
    every prompt. *)
Definition refuses (request_confirmation : FileManager.confirmation) : Prop :=
  ∀ ask, request_confirmation = Some ask → ∀ prompt, ask prompt = false.

(** A file system of one file, for the examples: reading gives its text,
    writing replaces it, removing empties it. *)
Definition one_file_read (path : string) (w : string) : string + string := inl w.
Definition one_file_write (path content : string) (w : string) : string + string :=
  inl content.
Definition one_file_remove (path : string) (w : string) : string + string := inl "".

(** Starting a process appends its command line to the log of the
    processes started. *)
Definition log_popen (cmd : list string) (w : list (list string))
  : list (list string) + string := inl (w ++ [cmd]).
Definition log_shell (cmd : string) (w : list (list string))
  : list (list string) + string := inl (w ++ [[cmd]]).

End GateVocabulary.

(** ** Further vocabulary: what the extraction finds *)

Section ExtractionVocabulary.
Import UserProfileManager.

(** The string does not end in white space. *)
Fixpoint ends_well (s : string) : bool :=
  match s with
  | EmptyString => true
  | String c s' =>
      match s' with
      | EmptyString => negb (PyStr.is_space c)
      | _ => ends_well s'
      end
  end.

(** A name as the extraction stores it: letters only, two at least, in
    the form that [capitalize] gives. *)
Definition name_shaped (n : string) : Prop :=
  PyStr.isalpha n = true ∧ 2 ≤ String.length n ∧ PyStr.capitalize n = n.

(** An interest or a skill as the extraction stores it: between 3 and 50
    characters. *)
Definition fact_shaped (fact : string) : Prop :=
  3 ≤ String.length fact ≤ 50.

Definition shaped (e : extracted) : Prop :=
  (∀ n, extracted_preferred_name e = Some n → name_shaped n) ∧
  (∀ fact, fact ∈ default ∅ (extracted_interests e) → fact_shaped fact) ∧
  (∀ fact, fact ∈ default ∅ (extracted_skills e) → fact_shaped fact).

End ExtractionVocabulary.

(* ===================================================================== *)
(** * Part III: lemmas and theorems *)
(* ===================================================================== *)

(** ** Dictionaries and sorting *)

Section DictFacts.
Context {V : Type}.
Implicit Types (d : PyDict.t V) (k : string) (v : V).

Lemma dict_get_set_eq d k v : PyDict.get (PyDict.set d k v) k = Some v.
Proof.
  induction d as [|[k' v'] d IH]; simpl.
  - by rewrite String.eqb_refl.
  - destruct (String.eqb k' k) eqn:E; simpl; rewrite E; auto.
Qed.

Lemma dict_get_set_ne d k k' v :
  k ≠ k' → PyDict.get (PyDict.set d k v) k' = PyDict.get d k'.
Proof.
  intros Hne. induction d as [|[k0 v0] d IH]; simpl.
  - destruct (String.eqb_spec k k'); congruence.
  - destruct (String.eqb_spec k0 k) as [->|]; simpl.
    + destruct (String.eqb_spec k k'); congruence.
    + by rewrite IH.
Qed.

Lemma dict_get_set d k k' v :
  PyDict.get (PyDict.set d k v) k' = if decide (k = k') then Some v else PyDict.get d k'.
Proof.
  case_decide as E; [subst; apply dict_get_set_eq | by apply dict_get_set_ne].
Qed.

Lemma dict_keys_get d k : k ∈ PyDict.keys d ↔ is_Some (PyDict.get d k).
Proof.
  unfold PyDict.keys. induction d as [|[k' v'] d IH]; simpl.
  - split; [by intros ?%elem_of_nil | by intros [? ?]].
  - rewrite elem_of_cons, IH.
    destruct (String.eqb_spec k' k) as [->|]; [by split; eauto|].
    split; [intros [?|?]; [congruence|done] | by right].
Qed.

End DictFacts.

Section SortedFacts.
Context {A : Type} (key_le : A → A → bool).

Lemma insert_desc_perm x l : PyList.insert_desc key_le x l ≡ₚ x :: l.
Proof.
  induction l as [|y l IH]; simpl; [done|].
  destruct (key_le y x); [done|]. rewrite IH. apply Permutation_swap.
Qed.

Lemma sorted_desc_perm l : PyList.sorted_desc key_le l ≡ₚ l.
Proof.
  induction l as [|x l IH]; simpl; [done|].
  by rewrite insert_desc_perm, IH.
Qed.

Lemma StronglySorted_weaken (R1 R2 : relation A) l :
  (∀ a b, R1 a b → R2 a b) → StronglySorted R1 l → StronglySorted R2 l.
Proof.
  intros Himp. induction 1 as [|x l Hsorted IH Hall]; constructor; [done|].
  eapply Forall_impl; [exact Hall | auto].
Qed.

Hypothesis key_le_total : ∀ x y, key_le x y = true ∨ key_le y x = true.
Hypothesis key_le_trans :
  ∀ x y z, key_le x y = true → key_le y z = true → key_le x z = true.

Lemma insert_desc_sorted x l :
  StronglySorted (precedes key_le) l →
  StronglySorted (precedes key_le) (PyList.insert_desc key_le x l).
Proof.
  induction 1 as [|y l Hsorted IH Hall]; simpl.
  - by repeat constructor.
  - destruct (key_le y x) eqn:Hyx.
    + constructor; [by constructor|].
      constructor; [done|].
      eapply Forall_impl; [exact Hall|]. intros z Hz. unfold precedes in *. eauto.
    + constructor; [done|].
      rewrite insert_desc_perm. constructor; [|done].
      unfold precedes. destruct (key_le_total x y); [done | congruence].
Qed.

(** The sort puts the items in the order of falling key. *)
Lemma sorted_desc_sorted l :
  StronglySorted (precedes key_le) (PyList.sorted_desc key_le l).
Proof.
  induction l as [|x l IH]; simpl; [constructor | by apply insert_desc_sorted].
Qed.

End SortedFacts.

(** ** The keyword index *)

Section IndexFacts.
Import ConversationIndex.

Lemma in_bucket_index_keyword sid kws kw k s :
  in_bucket (index_keyword sid kws kw) k s ↔
  in_bucket kws k s ∨ (k = kw ∧ s = sid).
Proof.
  unfold index_keyword, in_bucket, PyDict.mem, PyDict.get_default.
  destruct (PyDict.get kws kw) as [b|] eqn:Hget.
  - rewrite Hget. case_bool_decide as Hin.
    + split; [by left|]. intros [?|[-> ->]]; eauto.
    + split.
      * intros (b' & Hb' & Hs). rewrite dict_get_set in Hb'.
        case_decide; simplify_eq; [|by eauto].
        apply elem_of_app in Hs as [?|?%list_elem_of_singleton]; eauto.
      * intros [(b' & Hb' & Hs)|[-> ->]].
        -- destruct (decide (kw = k)) as [->|Hne].
           ++ exists (b ++ [sid]). rewrite dict_get_set_eq. split; [done|].
              simplify_eq. apply elem_of_app; auto.
           ++ exists b'. by rewrite dict_get_set_ne.
        -- exists (b ++ [sid]). rewrite dict_get_set_eq. split; [done|].
           apply elem_of_app. right. by apply list_elem_of_singleton.
  - rewrite dict_get_set_eq. simpl.
    split.
    + intros (b' & Hb' & Hs). rewrite dict_get_set in Hb'.
      case_decide; simplify_eq.
      * apply list_elem_of_singleton in Hs. auto.
      * rewrite dict_get_set_ne in Hb' by done. eauto.
    + intros [(b' & Hb' & Hs)|[-> ->]].
      * destruct (decide (kw = k)) as [->|Hne]; [congruence|].
        exists b'. by rewrite !dict_get_set_ne.
      * exists [sid]. rewrite dict_get_set_eq. split; [done|].
        by apply list_elem_of_singleton.
Qed.

Lemma in_bucket_fold sid new kws k s :
  in_bucket (fold_left (index_keyword sid) new kws) k s ↔
  in_bucket kws k s ∨ (k ∈ new ∧ s = sid).
Proof.
  revert kws. induction new as [|kw new IH]; intros kws; simpl.
  - split; [by left|]. by intros [?|[?%elem_of_nil ?]].
  - rewrite IH, in_bucket_index_keyword, elem_of_cons. tauto.
Qed.

(** After [add_conversation] a bucket holds what it held, and the session
    added in the bucket of each of its keywords. *)
Lemma in_bucket_add idx sid new ts n k s :
  in_bucket (keywords (add_conversation idx sid new ts n)) k s ↔
  in_bucket (keywords idx) k s ∨ (k ∈ new ∧ s = sid).
Proof. apply in_bucket_fold. Qed.

Lemma has_keyword_add idx sid new ts n s k :
  has_keyword (add_conversation idx sid new ts n) s k ↔
  (s = sid ∧ k ∈ new) ∨ (s ≠ sid ∧ has_keyword idx s k).
Proof.
  unfold has_keyword, add_conversation; simpl. split.
  - intros (e & He & Hk). rewrite lookup_insert in He.
    case_decide; simplify_eq/=; [by left|right; eauto].
  - intros [[-> Hk]|[Hne (e & He & Hk)]].
    + eexists. rewrite lookup_insert_eq. by split.
    + exists e. by rewrite lookup_insert_ne.
Qed.

End IndexFacts.

Section SearchFacts.
Import ConversationIndex.

Lemma bump_keys w m s s' :
  s' ∈ PyDict.keys (bump w m s) ↔ s' = s ∨ s' ∈ PyDict.keys m.
Proof.
  unfold bump. rewrite !dict_keys_get, dict_get_set.
  case_decide; subst; split; eauto; intros [?|?]; eauto; congruence.
Qed.

Lemma fold_bump_keys w bucket m s :
  s ∈ PyDict.keys (fold_left (bump w) bucket m) ↔ s ∈ bucket ∨ s ∈ PyDict.keys m.
Proof.
  revert m. induction bucket as [|x bucket IH]; intros m; simpl.
  - split; [by right|]. by intros [?%elem_of_nil|?].
  - rewrite IH, bump_keys, elem_of_cons. tauto.
Qed.

Lemma partial_step_keys q m item s :
  s ∈ PyDict.keys m → s ∈ PyDict.keys (partial_step q m item).
Proof.
  intros Hs. destruct item as [ik bucket]; simpl.
  destruct (_ || _); [|done]. apply fold_bump_keys. by right.
Qed.

Lemma partial_match_keys idx q m s :
  s ∈ PyDict.keys m → s ∈ PyDict.keys (partial_match idx q m).
Proof.
  unfold partial_match. generalize (keywords idx) as kws. intros kws.
  revert m. induction kws as [|item kws IH]; intros m Hs; simpl; [done|].
  by apply IH, partial_step_keys.
Qed.

(** Every session of the exact bucket of the lowered keyword is scored. *)
Lemma score_keyword_exact idx m q s :
  in_bucket (keywords idx) (PyStr.lower q) s →
  s ∈ PyDict.keys (score_keyword idx m q).
Proof.
  intros (bucket & Hget & Hs). unfold score_keyword.
  apply partial_match_keys. unfold direct_match. rewrite Hget.
  apply fold_bump_keys. by left.
Qed.

(** The result lists the scored sessions, each once. *)
Lemma search_by_keywords_perm idx qs :
  search_by_keywords idx qs ≡ₚ PyDict.keys (matching_sessions idx qs).
Proof.
  unfold search_by_keywords, PyDict.keys. by rewrite sorted_desc_perm.
Qed.

(** The ranking: scores fall along the result. *)
Lemma matching_sessions_ranked idx qs :
  StronglySorted (fun a b => (snd b <= snd a)%Q)
    (PyList.sorted_desc by_score (matching_sessions idx qs)).
Proof.
  eapply StronglySorted_weaken; [|apply (sorted_desc_sorted by_score)].
  - intros a b. unfold precedes, by_score. apply Qle_bool_iff.
  - intros x y. unfold by_score. rewrite !Qle_bool_iff.
    destruct (Qlt_le_dec (snd y) (snd x)); [right; by apply Qlt_le_weak | by left].
  - intros x y z. unfold by_score. rewrite !Qle_bool_iff. apply Qle_trans.
Qed.

End SearchFacts.

(** ** C2 and C8: the index after [add_conversation] *)

Section IndexClaims.
Import ConversationIndex.

(** C2, as stated, fails: the inverted map is not derivable from the forward
    map. After session ["s"] is re-added with the keywords [["b"]] in place
    of [["a"]], it is still in the bucket of ["a"], which is no keyword of
    its entry in the forward map. *)
Lemma stale_bucket_counterexample :
  reachable stale_index ∧
  in_bucket (keywords stale_index) "a" "s" ∧
  ¬ has_keyword stale_index "s" "a".
Proof.
  split; [repeat constructor|]. split.
  - exists ["s"]. split; [reflexivity|]. by apply list_elem_of_singleton.
  - unfold stale_index. rewrite has_keyword_add.
    intros [[_ Hin]|[Hne _]]; [|done].
    by apply list_elem_of_singleton in Hin.
Qed.

(** C2, amended: in every state reached from the empty index by
    [add_conversation], the forward map is contained in the inverted map (a
    session is in the bucket of each keyword of its current entry), and
    every session of a bucket is a session of the forward map. Buckets are
    never pruned, so the converse containment is not claimed. *)
Theorem forward_map_in_buckets idx :
  reachable idx →
  ∀ sid k,
    (has_keyword idx sid k → in_bucket (keywords idx) k sid) ∧
    (in_bucket (keywords idx) k sid → is_Some (conversations idx !! sid)).
Proof.
  induction 1 as [|idx sid' new ts n Hreach IH]; intros sid k.
  - split.
    + intros (e & He & _). simpl in He. by rewrite lookup_empty in He.
    + intros (b & Hb & _). discriminate.
  - destruct (IH sid k) as [IHf IHb]. split.
    + rewrite has_keyword_add, in_bucket_add. intros [[-> ?]|[_ ?]]; auto.
    + rewrite in_bucket_add. unfold add_conversation; simpl.
      intros [Hold|[_ ->]].
      * destruct (decide (sid' = sid)) as [->|Hne].
        -- rewrite lookup_insert_eq. eauto.
        -- rewrite lookup_insert_ne by done. auto.
      * rewrite lookup_insert_eq. eauto.
Qed.

Lemma forward_map_in_buckets_witness :
  reachable stale_index ∧
  (has_keyword stale_index "s" "b" → in_bucket (keywords stale_index) "b" "s") ∧
  (in_bucket (keywords stale_index) "b" "s" →
   is_Some (conversations stale_index !! "s")).
Proof.
  split; [repeat constructor|].
  apply (forward_map_in_buckets stale_index). repeat constructor.
Defined.

(** C8, as stated, fails for a keyword that is not lower-case: the search
    lowers the query, the index keeps the keyword as given. *)
Lemma search_misses_upper_case_counterexample :
  "Python" ∈ ["Python"] ∧
  "s1" ∉ search_by_keywords (add_conversation empty "s1" ["Python"] "t" 1) ["Python"].
Proof.
  split; [by apply list_elem_of_singleton|].
  vm_compute. by intros ?%elem_of_nil.
Qed.

(** C8, amended: right after [add_conversation idx sid K ts n], a search for
    any keyword [k] of [K] that is lower-case (as every keyword that
    [_extract_keywords] produces is) lists [sid]. *)
Theorem search_finds_added idx sid K ts n k :
  k ∈ K → PyStr.lower k = k →
  sid ∈ search_by_keywords (add_conversation idx sid K ts n) [k].
Proof.
  intros Hk Hlow. rewrite search_by_keywords_perm. simpl.
  apply score_keyword_exact. rewrite Hlow, in_bucket_add. by right.
Qed.

Lemma search_finds_added_witness :
  "like" ∈ ["i like"; "like"] ∧
  PyStr.lower "like" = "like" ∧
  "s1" ∈ search_by_keywords
           (add_conversation stale_index "s1" ["i like"; "like"] "t" 2) ["like"].
Proof.
  assert ("like" ∈ ["i like"; "like"]) as Hin.
  { apply elem_of_cons; right. by apply list_elem_of_singleton. }
  split; [done|]. split; [reflexivity|].
  apply search_finds_added; [done | reflexivity].
Defined.

End IndexClaims.

(** ** C1: the scores of a search *)

Section ScoreClaims.
Import ConversationIndex.
Local Open Scope Q_scope.

Lemma hits_S n : hits (S n) == hits n + 1.
Proof. unfold hits. rewrite Nat2Z.inj_succ, <- Z.add_1_r, inject_Z_plus. reflexivity. Qed.

Lemma score_in_bump w m s s' :
  score_in (bump w m s) s' == score_in m s' + (if decide (s = s') then w else 0).
Proof.
  unfold score_in, bump, PyDict.get_default. rewrite dict_get_set.
  case_decide; subst; [reflexivity|]. by rewrite Qplus_0_r.
Qed.

Lemma score_in_fold_bump w bucket m s :
  score_in (fold_left (bump w) bucket m) s
  == score_in m s + hits (occurrences s bucket) * w.
Proof.
  revert m. induction bucket as [|x bucket IH]; intros m; simpl.
  - unfold hits, occurrences; simpl. ring.
  - rewrite IH, score_in_bump. unfold occurrences. rewrite filter_cons.
    destruct (decide (x = s)) as [->|Hne].
    + rewrite decide_True by done. simpl length. rewrite hits_S. ring.
    + rewrite decide_False by congruence. ring.
Qed.

Lemma score_in_direct idx q m s :
  score_in (direct_match idx q m) s == score_in m s + exact_part (keywords idx) q s.
Proof.
  unfold direct_match, exact_part. destruct (PyDict.get _ _).
  - apply score_in_fold_bump.
  - ring.
Qed.

Lemma score_in_partial idx q m s :
  score_in (partial_match idx q m) s == score_in m s + partial_part (keywords idx) q s.
Proof.
  unfold partial_match. generalize (keywords idx) as kws. intros kws.
  revert m. induction kws as [|[ik bucket] kws IH]; intros m; simpl.
  - ring.
  - rewrite IH. unfold partial_test. destruct (_ || _).
    + rewrite score_in_fold_bump. ring.
    + ring.
Qed.

Lemma score_in_matching idx kws m s :
  score_in (fold_left (score_keyword idx) kws m) s
  == score_in m s + total_contribution idx kws s.
Proof.
  revert m. induction kws as [|q kws IH]; intros m; simpl.
  - ring.
  - rewrite IH. unfold score_keyword, contribution.
    rewrite score_in_partial, score_in_direct. ring.
Qed.

(** C1, as stated, fails: the score of [B] is not 1. *)
Lemma exact_score_counterexample :
  ¬ (score python_index ["python"] "B" == 1).
Proof. by vm_compute. Qed.

(** C1, amended: in the example [B] scores 3/2 (1 for its exact bucket and
    1/2 more, as the key of the exact bucket passes the substring test
    too), [A] scores 1/2, and the result is [B] before [A]. In general the
    score of a session is the sum over the query keywords, lowered, of 1 for
    each listing in the exact bucket and 1/2 for each listing in each
    bucket whose key is a substring of the keyword or contains it, the
    exact bucket included. *)
Theorem search_scores :
  score python_index ["python"] "B" == 3 # 2 ∧
  score python_index ["python"] "A" == 1 # 2 ∧
  search_by_keywords python_index ["python"] = ["B"; "A"] ∧
  ∀ idx kws s, score idx kws s == total_contribution idx kws s.
Proof.
  split; [by vm_compute|]. split; [by vm_compute|]. split; [by vm_compute|].
  intros idx kws s. unfold score, matching_sessions.
  change (score_in (fold_left (score_keyword idx) kws []) s
          == total_contribution idx kws s).
  rewrite score_in_matching. change (score_in [] s) with 0. ring.
Qed.

End ScoreClaims.

(** ** The session store *)

Section StoreFacts.
Import MemoryManager.

Lemma read_write_eq dir file_name now txt :
  read_file (write_file dir file_name now txt) file_name = Some txt.
Proof.
  induction dir as [|f dir IH]; simpl.
  - by rewrite String.eqb_refl.
  - destruct (String.eqb (name f) file_name) eqn:E; simpl.
    + by rewrite String.eqb_refl.
    + by rewrite E.
Qed.




Lemma messages_json_inj : Inj (=) (=) messages_json.
Proof.
  intros M1 M2 H. unfold messages_json in H. injection H as H.
  revert M2 H. induction M1 as [|m1 M1 IH]; intros [|m2 M2] H; try done.
  cbn [map] in H. injection H as Hrole Hcontent Hrest.
  f_equal; [|by apply IH].
  destruct m1, m2; simpl in *; congruence.
Qed.

(** What a save that returns has done. *)
Lemma save_conversation_returned set_order sys now M session_id mm sid mm' :
  save_conversation set_order sys now M session_id mm = Returned sid mm' →
  sid = stored_id now session_id ∧
  plain_id sid = true ∧
  conversations_dir mm'
  = write_file (conversations_dir mm) (sid +:+ ".json") (epoch now)
      (Parsed (stored_record now sid M)) ∧
  index mm'
  = ConversationIndex.add_conversation (index mm) sid (_extract_keywords set_order M)
      (isoformat now) (length M) ∧
  profile_file mm' = profile_file mm ∧
  current_session_file mm' = current_session_file mm ∧
  index_file mm' = Some (IndexText (index mm')).
Proof.
  unfold save_conversation. fold (stored_id now session_id).
  destruct (plain_id (stored_id now session_id)) eqn:Hplain; [|done].
  destruct (can_write sys (ConversationFile _)); [|done].
  destruct (can_write sys IndexFile); [|done].
  cbn [negb]. intros [= <- <-]. by repeat split.
Qed.


(** A save under a plain id that the file system permits returns. *)
Lemma save_conversation_permitted set_order sys now M session_id mm :
  plain_id (stored_id now session_id) = true →
  permits sys (stored_id now session_id) →
  ∃ mm',
    save_conversation set_order sys now M session_id mm
    = Returned (stored_id now session_id) mm'.
Proof.
  intros Hplain [Hfile Hindex]. unfold save_conversation.
  fold (stored_id now session_id). rewrite Hplain, Hfile, Hindex. by eexists.
Qed.

Lemma plain_id_nonempty sid : plain_id sid = true → sid ≠ "".
Proof. by intros H ->. Qed.


Lemma load_written mm dir sid now M :
  conversations_dir mm
  = write_file dir (sid +:+ ".json") (epoch now) (Parsed (stored_record now sid M)) →
  load_conversation mm sid = Ok (Some (messages_json M)).
Proof.
  intros Hdir. unfold load_conversation. by rewrite Hdir, read_write_eq.
Qed.

Lemma read_summary_handled f :
  listable f →
  try_except (read_summary f) [JSONDecodeError; IOError; AttributeError] (Ok None)
  = Ok (summary_of f).
Proof.
  intros Hf. unfold listable in Hf. unfold read_summary, summary_of.
  destruct (text f) as [j| |e]; simpl in *.
  - by destruct j.
  - reflexivity.
  - by rewrite bool_decide_eq_true_2 by (by apply Hf).
Qed.

Lemma list_loop_spec files acc :
  Forall listable files →
  list_loop files acc = Ok (acc ++ omap summary_of files).
Proof.
  intros Hall. revert acc.
  induction Hall as [|f files Hf _ IH]; intros acc; cbn [list_loop].
  - by rewrite app_nil_r.
  - rewrite (read_summary_handled f Hf). cbn [mbind res_bind]. rewrite IH.
    cbn [omap list_omap]. destruct (summary_of f); [by rewrite <- app_assoc | done].
Qed.

(** The listing reads the files newest first. *)
Lemma conversation_files_newest_first dir :
  StronglySorted (fun a b => (mtime b ≤ mtime a)%Z)
    (PyList.sorted_desc newer (glob_json dir)).
Proof.
  eapply StronglySorted_weaken; [|apply (sorted_desc_sorted newer)].
  - intros a b. unfold precedes, newer. apply Z.leb_le.
  - intros x y. unfold newer. rewrite !Z.leb_le. lia.
  - intros x y z. unfold newer. rewrite !Z.leb_le. lia.
Qed.

Lemma slice_to_all {A} (l : list A) (n : Z) :
  (Z.of_nat (length l) ≤ n)%Z → PyList.slice_to l n = l.
Proof.
  intros Hn. unfold PyList.slice_to.
  destruct (Z.ltb_spec n 0); [lia|]. apply take_ge. lia.
Qed.

Lemma slice_to_take {A} (l : list A) (n : Z) :
  (0 ≤ n)%Z → PyList.slice_to l n = take (Z.to_nat n) l.
Proof. intros Hn. unfold PyList.slice_to. by destruct (Z.ltb_spec n 0); [lia|]. Qed.

Lemma list_conversations_listed mm limit :
  (∀ f, f ∈ glob_json (conversations_dir mm) → listable f) →
  list_conversations mm limit
  = Ok (omap summary_of
          (PyList.slice_to
             (PyList.sorted_desc newer (glob_json (conversations_dir mm))) limit)).
Proof.
  intros Hall. unfold list_conversations.
  rewrite list_loop_spec; [done|]. apply Forall_forall. intros f Hf. apply Hall.
  unfold PyList.slice_to in Hf.
  destruct (limit <? 0)%Z; apply elem_of_take in Hf as (i & Hi & _);
    apply list_elem_of_lookup_2 in Hi; by rewrite sorted_desc_perm in Hi.
Qed.





End StoreFacts.

(** ** C3, C4 and C7: the session store *)

Section StoreClaims.
Import MemoryManager.

(** C3, as stated, fails for the empty session id: [save_conversation]
    takes it as no id and stores under an id made from the clock, so a
    load of the empty id finds nothing. *)
Lemma empty_id_counterexample :
  ∃ sid mm',
    save_conversation remove_dups willing noon hiking (Some "") empty_manager
    = Returned sid mm' ∧
    load_conversation mm' "" = Ok None.
Proof. do 2 eexists. split; reflexivity. Qed.

(** C3, amended: for every message sequence [M] and every session id that
    is plain (a missing or empty id is replaced by one made from the
    clock), when the file system permits the two writes,
    [save_conversation] returns the id, and a load of the id it returns
    gives exactly [M], the same elements in the same order. The id
    returned is the caller's whenever that is not empty. *)
Theorem save_load_round_trip set_order sys now M session_id mm :
  plain_id (stored_id now session_id) = true →
  permits sys (stored_id now session_id) →
  ∃ sid mm',
    save_conversation set_order sys now M session_id mm = Returned sid mm' ∧
    load_conversation mm' sid = Ok (Some (messages_json M)) ∧
    sid = match session_id with
          | Some s => if String.eqb s "" then strftime_id now else s
          | None => strftime_id now
          end ∧
    ∀ M', messages_json M' = messages_json M → M' = M.
Proof.
  intros Hplain Hsys.
  destruct (save_conversation_permitted set_order sys now M session_id mm Hplain Hsys)
    as [mm' Hsave].
  exists (stored_id now session_id), mm'. split; [done|].
  apply save_conversation_returned in Hsave as (_ & _ & Hdir & _).
  split; [by eapply load_written|]. split.
  - unfold stored_id, PyStr.truthy.
    destruct session_id as [s|]; [|done]. by destruct (String.eqb s "").
  - intros M' H. by apply messages_json_inj.
Qed.

Lemma save_load_round_trip_witness :
  ∃ sid mm',
    save_conversation remove_dups willing noon hiking (Some "s1") empty_manager
    = Returned sid mm' ∧
    load_conversation mm' sid = Ok (Some (messages_json hiking)) ∧
    sid = "s1" ∧
    ∀ M', messages_json M' = messages_json hiking → M' = hiking.
Proof.
  apply (save_load_round_trip remove_dups willing noon hiking (Some "s1") empty_manager);
    [reflexivity | split; reflexivity].
Defined.

(** C4, as stated, fails: the limit is applied to the files before the
    corrupt ones are skipped. Of ten valid records and one newer corrupt
    file, a listing with the default limit of 10 returns nine summaries,
    not the ten valid ones. *)
Lemma corrupt_file_takes_a_slot_counterexample :
  length (omap summary_of (conversations_dir eleven_files)) = 10 ∧
  ∃ l, list_conversations eleven_files 10 = Ok l ∧ length l = 9.
Proof. split; [reflexivity|]. eexists. split; reflexivity. Qed.

(** C4, amended: when reading a [*.json] entry of the directory raises
    nothing or what the listing catches -- the entry is a JSON document,
    text that is no JSON, or cannot be opened --, [list_conversations]
    raises no error and returns exactly the summaries of the valid records
    among the [limit] most recently modified entries, newest first:
    corrupt entries are skipped, after the limit was applied. When the
    limit covers all entries (the [N] valid ones and the corrupt ones),
    these are exactly the [N] valid summaries. *)
Theorem list_conversations_skips_corrupt mm limit :
  (0 ≤ limit)%Z →
  (∀ f, f ∈ glob_json (conversations_dir mm) → listable f) →
  (∃ files,
     files ≡ₚ glob_json (conversations_dir mm) ∧
     StronglySorted (fun a b => (mtime b ≤ mtime a)%Z) files ∧
     list_conversations mm limit
     = Ok (omap summary_of (take (Z.to_nat limit) files))) ∧
  ((Z.of_nat (length (glob_json (conversations_dir mm))) ≤ limit)%Z →
   ∃ l, list_conversations mm limit = Ok l ∧
        l ≡ₚ omap summary_of (glob_json (conversations_dir mm))).
Proof.
  intros Hlimit Hall. rewrite (list_conversations_listed mm limit Hall). split.
  - exists (PyList.sorted_desc newer (glob_json (conversations_dir mm))).
    split; [apply sorted_desc_perm|]. split; [apply conversation_files_newest_first|].
    by rewrite slice_to_take.
  - intros Hcovers. eexists. split; [done|].
    rewrite slice_to_all.
    + by rewrite sorted_desc_perm.
    + by rewrite sorted_desc_perm.
Qed.

Lemma list_conversations_skips_corrupt_witness :
  (∃ files,
     files ≡ₚ glob_json (conversations_dir eleven_files) ∧
     StronglySorted (fun a b => (mtime b ≤ mtime a)%Z) files ∧
     list_conversations eleven_files 11
     = Ok (omap summary_of (take (Z.to_nat 11) files))) ∧
  ((Z.of_nat (length (glob_json (conversations_dir eleven_files))) ≤ 11)%Z →
   ∃ l, list_conversations eleven_files 11 = Ok l ∧
        l ≡ₚ omap summary_of (glob_json (conversations_dir eleven_files))).
Proof.
  apply (list_conversations_skips_corrupt eleven_files 11); [lia|].
  intros f Hf e He. apply list_elem_of_filter in Hf as [_ Hf].
  cbn [eleven_files conversations_dir] in Hf.
  repeat (apply elem_of_cons in Hf as [->|Hf]; [try discriminate He|]).
  - injection He as <-. left.
  - by apply elem_of_nil in Hf.
Defined.



(** The scenario of the specification: a saved session is gone after the
    memory was cleared. *)
Example clear_after_save :
  ∃ mm1 mm2,
    save_conversation remove_dups willing noon hiking (Some "s1") empty_manager
    = Returned "s1" mm1 ∧
    clear_memory willing mm1 true = (true, mm2) ∧
    load_conversation mm2 "s1" = Ok None.
Proof. do 2 eexists. repeat split. Qed.

End StoreClaims.

(** ** Strings: lower case and words *)

Section StringFacts.
Import PyStr.

Lemma append_cons c s t : String c s +:+ t = String c (s +:+ t).
Proof. reflexivity. Qed.

Lemma append_nil_l s : "" +:+ s = s.
Proof. reflexivity. Qed.

Lemma all_chars_append p s t :
  all_chars p (s +:+ t) = all_chars p s && all_chars p t.
Proof.
  induction s as [|c s IH]; [done|].
  rewrite append_cons. simpl. by rewrite IH, andb_assoc.
Qed.

Lemma lower_char_not_upper c : not_upper (lower_char c) = true.
Proof. by destruct c as [[] [] [] [] [] [] [] []]. Qed.

Lemma lower_not_upper s : all_chars not_upper (lower s) = true.
Proof.
  induction s as [|c s IH]; [done|]. simpl. by rewrite lower_char_not_upper, IH.
Qed.

Lemma lower_fixed s : all_chars not_upper s = true → lower s = s.
Proof.
  induction s as [|c s IH]; [done|]. simpl.
  intros [Hc Hs]%andb_true_iff. rewrite IH by done. f_equal.
  unfold lower_char, not_upper in *. by destruct (is_upper c).
Qed.

(** [lower] is idempotent: a lowered string is lower-case. *)
Lemma lower_lower s : lower (lower s) = lower s.
Proof. apply lower_fixed, lower_not_upper. Qed.

Lemma split_ws_go_chars p cur s :
  all_chars p cur = true → all_chars p s = true →
  Forall (fun w => all_chars p w = true) (split_ws_go cur s).
Proof.
  revert cur. induction s as [|c s IH]; intros cur Hcur Hs; simpl.
  - destruct (String.eqb cur ""); by repeat constructor.
  - simpl in Hs. apply andb_true_iff in Hs as [Hc Hs].
    destruct (is_space c).
    + apply Forall_app. split; [|by apply IH].
      destruct (String.eqb cur ""); by repeat constructor.
    + apply IH; [|done]. rewrite all_chars_append. simpl.
      by rewrite Hcur, Hc.
Qed.

(** The words of a string are made of its characters. *)
Lemma split_ws_chars p s :
  all_chars p s = true → Forall (fun w => all_chars p w = true) (split_ws s).
Proof. by apply split_ws_go_chars. Qed.

End StringFacts.

(** ** C5: keyword extraction *)

Section KeywordClaims.
Import MemoryManager.

Lemma phrases_spec words k :
  k ∈ phrases words →
  ∃ i w1 w2, words !! i = Some w1 ∧ words !! S i = Some w2 ∧
             k = w1 +:+ " " +:+ w2 ∧ 6 ≤ String.length k ≤ 49.
Proof.
  induction words as [|w1 words IH]; simpl; [by intros ?%elem_of_nil|].
  destruct words as [|w2 words]; [by intros ?%elem_of_nil|].
  intros [Hk|Hk]%elem_of_app.
  - destruct (5 <? _) eqn:H5; [|by apply elem_of_nil in Hk].
    destruct (_ <? 50) eqn:H50; [|by apply elem_of_nil in Hk].
    apply list_elem_of_singleton in Hk as ->.
    apply Nat.ltb_lt in H5, H50.
    exists 0, w1, w2. repeat split; [lia..].
  - destruct (IH Hk) as (i & a & b & Ha & Hb & -> & Hlen).
    exists (S i), a, b. by destruct Hlen.
Qed.

Lemma important_words_lower :
  Forall (fun w => PyStr.all_chars not_upper w = true) important_words.
Proof. by repeat constructor. Qed.

Lemma message_keywords_spec msg k :
  k ∈ message_keywords msg →
  PyStr.lower k = k ∧
  (vocabulary_keyword [msg] k ∨ two_word_phrase [msg] k).
Proof.
  unfold message_keywords. intros [Hk|Hk]%elem_of_app.
  - apply list_elem_of_filter in Hk as [Hin Hk]. split.
    + apply lower_fixed.
      by apply (proj1 (Forall_forall _ _) important_words_lower).
    + left. split; [done|]. exists msg. split; [by left|].
      by apply Is_true_true.
  - destruct (phrases_spec _ _ Hk) as (i & w1 & w2 & H1 & H2 & -> & Hlen).
    pose proof (split_ws_chars not_upper _
                  (lower_not_upper (content msg))) as Hwords.
    split.
    + apply lower_fixed. rewrite !all_chars_append.
      rewrite (proj1 (Forall_forall _ _) Hwords w1)
        by (by eapply list_elem_of_lookup_2).
      rewrite (proj1 (Forall_forall _ _) Hwords w2)
        by (by eapply list_elem_of_lookup_2).
      done.
    + right. exists msg, i, w1, w2. repeat split; [by left|done..|lia|lia].
Qed.

Lemma vocabulary_keyword_mono messages messages' k :
  messages ⊆ messages' →
  vocabulary_keyword messages k → vocabulary_keyword messages' k.
Proof. intros Hsub (Hin & msg & Hmsg & Hk). split; [done|]. eauto. Qed.

Lemma two_word_phrase_mono messages messages' k :
  messages ⊆ messages' →
  two_word_phrase messages k → two_word_phrase messages' k.
Proof.
  intros Hsub (msg & i & w1 & w2 & Hmsg & H). exists msg, i, w1, w2. eauto.
Qed.

Lemma keyword_adds_spec messages k :
  k ∈ keyword_adds messages →
  PyStr.lower k = k ∧
  (vocabulary_keyword messages k ∨ two_word_phrase messages k).
Proof.
  unfold keyword_adds. intros Hk.
  apply list_elem_of_In, in_concat in Hk as (kws & Hkws & Hk).
  apply in_map_iff in Hkws as (msg & <- & Hmsg).
  apply list_elem_of_In in Hk, Hmsg.
  destruct (message_keywords_spec msg k Hk) as [Hlow Hshape].
  split; [done|].
  assert ([msg] ⊆ messages) as Hsub.
  { intros m Hm%list_elem_of_singleton. by subst. }
  destruct Hshape; [left | right];
    eauto using vocabulary_keyword_mono, two_word_phrase_mono.
Qed.

End KeywordClaims.

Section ExtractKeywordsClaim.
Import MemoryManager.

Lemma first_seen_elem seen adds x :
  x ∈ first_seen seen adds ↔ x ∈ adds ∧ x ∉ seen.
Proof.
  revert seen. induction adds as [|y adds IH]; intros seen; simpl.
  - split; [by intros ?%elem_of_nil | by intros [?%elem_of_nil _]].
  - case_bool_decide as Hy.
    + rewrite IH, elem_of_cons. split; [tauto|].
      intros [[->|?] ?]; [done | tauto].
    + rewrite elem_of_cons, IH, not_elem_of_cons, elem_of_cons.
      destruct (decide (x = y)) as [->|Hne]; [tauto|]. tauto.
Qed.

Lemma first_seen_NoDup seen adds : NoDup (first_seen seen adds).
Proof.
  revert seen. induction adds as [|y adds IH]; intros seen; simpl.
  - constructor.
  - case_bool_decide; [apply IH|]. constructor; [|apply IH].
    rewrite first_seen_elem, not_elem_of_cons. tauto.
Qed.

Lemma set_iteration_length set_order adds :
  set_iteration set_order →
  length (set_order adds) = length (first_seen [] adds).
Proof.
  intros Hord. destruct (Hord adds) as [Hnd Hel].
  apply Permutation_length, NoDup_Permutation; [done | apply first_seen_NoDup |].
  intros x. rewrite Hel, first_seen_elem. split; [|tauto].
  intros Hx. split; [done|]. apply not_elem_of_nil.
Qed.

Lemma reversed_iteration : set_iteration reversed.
Proof.
  intros adds. unfold reversed. split.
  - rewrite reverse_Permutation. apply NoDup_remove_dups.
  - intros x. by rewrite elem_of_reverse, elem_of_remove_dups.
Qed.

Lemma remove_dups_iteration : set_iteration remove_dups.
Proof.
  intros adds. split; [apply NoDup_remove_dups|].
  intros x. apply elem_of_remove_dups.
Qed.

(** C5, as stated, fails in its last part: the keywords kept are not the
    first 20 met. The message gives 21 distinct phrases; iterated in
    another order than that of encounter, the 20 kept are not the first 20. *)
Lemma not_first_twenty_counterexample :
  set_iteration reversed ∧
  _extract_keywords reversed alphabet
  ≠ take 20 (first_seen [] (keyword_adds alphabet)).
Proof. split; [apply reversed_iteration|]. by vm_compute. Qed.

(** C5, amended: every keyword kept was added for some message, is
    lower-case, and is a topic word of the fixed vocabulary that occurs in
    the text of a message or a phrase of two adjacent words of a message
    that is 6 to 49 characters long. At most 20 keywords are kept, without
    repetition: all of the distinct keywords met when there are at most 20
    of them, else the 20 that the iteration of the set yields first, which
    need not be the first 20 met. *)
Theorem extracted_keywords_shape set_order messages :
  set_iteration set_order →
  length (_extract_keywords set_order messages)
  = min 20 (length (first_seen [] (keyword_adds messages))) ∧
  NoDup (_extract_keywords set_order messages) ∧
  ∀ k, k ∈ _extract_keywords set_order messages →
       k ∈ keyword_adds messages ∧
       PyStr.lower k = k ∧
       (vocabulary_keyword messages k ∨ two_word_phrase messages k).
Proof.
  intros Hord. unfold _extract_keywords.
  destruct (Hord (keyword_adds messages)) as [Hnd Hel].
  split; [|split].
  - by rewrite length_take, (set_iteration_length _ _ Hord).
  - eapply sublist_NoDup; [done | apply sublist_take].
  - intros k Hk%subseteq_take. apply Hel in Hk.
    split; [done|]. by apply keyword_adds_spec.
Qed.

Lemma extracted_keywords_shape_witness :
  set_iteration remove_dups ∧
  length (_extract_keywords remove_dups hiking)
  = min 20 (length (first_seen [] (keyword_adds hiking))) ∧
  NoDup (_extract_keywords remove_dups hiking) ∧
  ∀ k, k ∈ _extract_keywords remove_dups hiking →
       k ∈ keyword_adds hiking ∧
       PyStr.lower k = k ∧
       (vocabulary_keyword hiking k ∨ two_word_phrase hiking k).
Proof.
  split; [apply remove_dups_iteration|].
  apply extracted_keywords_shape, remove_dups_iteration.
Defined.

End ExtractKeywordsClaim.

(** ** C6 and C9: the user profile *)

Section ProfileClaims.
Import MemoryManager UserProfileManager.

Lemma update_profile_interests now p e :
  as_set (interests (update_profile now p e))
  = as_set (interests p) ∪ default ∅ (extracted_interests e).
Proof.
  unfold update_profile; simpl. destruct (extracted_interests e); simpl; [done|].
  by rewrite (right_id_L ∅ (∪)).
Qed.

Lemma update_profile_skills now p e :
  as_set (skills (update_profile now p e))
  = as_set (skills p) ∪ default ∅ (extracted_skills e).
Proof.
  unfold update_profile; simpl. destruct (extracted_skills e); simpl; [done|].
  by rewrite (right_id_L ∅ (∪)).
Qed.

Lemma update_all_grows p calls :
  as_set (interests p) ⊆ as_set (interests (update_all p calls)) ∧
  as_set (skills p) ⊆ as_set (skills (update_all p calls)).
Proof.
  unfold update_all. revert p.
  induction calls as [|[now e] calls IH]; intros p; simpl; [done|].
  destruct (IH (update_profile now p e)) as [Hi Hs].
  rewrite update_profile_interests in Hi. rewrite update_profile_skills in Hs.
  split; (etrans; [apply union_subseteq_l | done]).
Qed.

Lemma update_all_nameless p calls :
  Forall nameless calls →
  preferred_name (update_all p calls) = preferred_name p.
Proof.
  unfold update_all. revert p.
  induction calls as [|[now e] calls IH]; intros p Hall; simpl; [done|].
  apply Forall_cons in Hall as [He Hall]. rewrite IH by done.
  unfold nameless in He; simpl in *. by rewrite He.
Qed.

Lemma update_all_app p calls1 calls2 :
  update_all p (calls1 ++ calls2) = update_all (update_all p calls1) calls2.
Proof. unfold update_all. apply fold_left_app. Qed.

(** C6: a call of [update_profile] makes the interests, and the skills,
    the union of what they were and what was extracted, so over any run of
    calls from any profile both sets only grow. The preferred name is
    overwritten, not merged: a call that extracted a (non-empty) name
    sets it, one that extracted none keeps it, so after a run of calls the
    name is the last one extracted. *)
Theorem profile_merge_monotone p calls :
  (∀ now e,
     as_set (interests (update_profile now p e))
     = as_set (interests p) ∪ default ∅ (extracted_interests e) ∧
     as_set (skills (update_profile now p e))
     = as_set (skills p) ∪ default ∅ (extracted_skills e)) ∧
  as_set (interests p) ⊆ as_set (interests (update_all p calls)) ∧
  as_set (skills p) ⊆ as_set (skills (update_all p calls)) ∧
  (∀ now e n later,
     extracted_preferred_name e = Some n → n ≠ "" → Forall nameless later →
     preferred_name (update_all p (calls ++ (now, e) :: later)) = Some n).
Proof.
  split; [|split; [|split]].
  - intros now e. split; [apply update_profile_interests | apply update_profile_skills].
  - apply update_all_grows.
  - apply update_all_grows.
  - intros now e n later He Hn Hlater.
    rewrite update_all_app. unfold update_all at 1. simpl.
    fold (update_all (update_profile now (update_all p calls) e) later).
    rewrite update_all_nameless by done. simpl. rewrite He.
    unfold PyStr.truthy. by destruct (String.eqb_spec n "").
Qed.

Lemma profile_merge_monotone_witness :
  preferred_name
    (update_all (_create_empty_profile "t0")
       ([("t1", Extracted (Some {["tea"]}) None None None (Some "Al"))]
        ++ ("t2", Extracted None (Some {["chess"]}) None None (Some "Bob"))
           :: [("t3", Extracted (Some {["jazz"]}) None None None None)]))
  = Some "Bob".
Proof.
  apply (proj2 (proj2 (proj2 (profile_merge_monotone _ _)))); [done..|].
  by repeat constructor.
Defined.

Lemma extract_user_texts history acc :
  foldlM extract_step history acc = foldlM extract_user_turn (user_texts history) acc.
Proof.
  revert acc. induction history as [|msg history IH]; intros acc; [done|].
  cbn [foldlM user_texts].
  assert (extract_step acc msg
          = if String.eqb (role msg) "user"
            then extract_user_turn acc (content msg) else mret acc) as -> by done.
  destruct (String.eqb (role msg) "user"); cbn [foldlM].
  - destruct (extract_user_turn acc (content msg)); [apply IH | done].
  - apply IH.
Qed.

(** C9: the result of the extraction pass (the interests, skills,
    preferences, mentions and preferred name, or the error raised) is a
    function of the texts of the user's turns alone: two runs over
    histories with the same user texts give the same result, whatever the
    state of the manager that runs them and whatever else the histories
    hold. *)
Theorem extraction_deterministic self1 self2 history1 history2 :
  user_texts history1 = user_texts history2 →
  extract_from_conversation self1 history1 = extract_from_conversation self2 history2.
Proof.
  intros Htexts. unfold extract_from_conversation.
  by rewrite !extract_user_texts, Htexts.
Qed.

Lemma extraction_deterministic_witness :
  user_texts greeting_1 = user_texts greeting_2 ∧
  extract_from_conversation (_create_empty_profile "t1") greeting_1
  = extract_from_conversation
      (update_profile "t3" (_create_empty_profile "t2")
         (Extracted (Some {["tea"]}) None None None (Some "Al")))
      greeting_2.
Proof. split; [reflexivity|]. by apply extraction_deterministic. Defined.

End ProfileClaims.

(** ** C10: the permission gate *)

Section PermissionClaims.
Import PermissionManager.

Lemma cleanup_lookup now self op :
  temp_permissions (_cleanup_expired_permissions now self) !! op
  = match temp_permissions self !! op with
    | Some (perm, expiry) => if decide (expiry < now)%Z then None else Some (perm, expiry)
    | None => None
    end.
Proof.
  unfold _cleanup_expired_permissions; simpl.
  destruct (temp_permissions self !! op) as [[perm expiry]|] eqn:Hget.
  - case_decide as Hexp.
    + apply map_lookup_filter_None. right. intros x Hx. simplify_eq.
      unfold expired; simpl. tauto.
    + apply map_lookup_filter_Some. split; [done|]. unfold expired; simpl. lia.
  - apply map_lookup_filter_None. by left.
Qed.

(** C10: [check_permission] fails closed. An operation with no entry in
    the permission table and no temporary grant that is still running is
    denied; so is internet access by a manager that was set up without a
    loadable config file, as the default table has no entry for it. *)
Theorem check_permission_fail_closed :
  (∀ now self op,
     permissions self !! value op = None →
     (∀ perm expiry,
        temp_permissions self !! value op = Some (perm, expiry) → (expiry < now)%Z) →
     (check_permission now self op).1 = DENY) ∧
  (∀ now, (check_permission now (init None) INTERNET_ACCESS).1 = DENY) ∧
  (∀ now, (check_permission now (init (Some None)) INTERNET_ACCESS).1 = DENY).
Proof.
  assert (∀ now self op,
     permissions self !! value op = None →
     (∀ perm expiry,
        temp_permissions self !! value op = Some (perm, expiry) → (expiry < now)%Z) →
     (check_permission now self op).1 = DENY) as Hgen.
  { intros now self op Hperm Htemp. unfold check_permission.
    rewrite cleanup_lookup.
    destruct (temp_permissions self !! value op) as [[perm expiry]|] eqn:Hget.
    - rewrite decide_True by eauto. simpl. by rewrite Hperm.
    - simpl. by rewrite Hperm. }
  split; [done|]. split; intros now; apply Hgen; try done.
Qed.

Lemma check_permission_fail_closed_witness :
  permissions lapsed !! value INTERNET_ACCESS = None ∧
  temp_permissions lapsed !! value INTERNET_ACCESS = Some (ALLOW, 300%Z) ∧
  (check_permission 301 lapsed INTERNET_ACCESS).1 = DENY.
Proof.
  split; [reflexivity|]. split; [reflexivity|].
  apply (proj1 check_permission_fail_closed); [reflexivity|].
  intros perm expiry H. vm_compute in H. injection H as _ <-. reflexivity.
Defined.

End PermissionClaims.

(* ===================================================================== *)
(** * Part IV: further properties of the code *)
(* ===================================================================== *)

(** ** The keyword index: who is found, in which order *)

Section SearchMore.
Import ConversationIndex.

Lemma prefix_refl s : String.prefix s s = true.
Proof.
  induction s as [|c s IH]; [done|]. simpl. by destruct (ascii_dec c c).
Qed.

Lemma contains_refl s : PyStr.contains s s = true.
Proof. destruct s as [|c s]; [done|]. unfold PyStr.contains. by rewrite prefix_refl. Qed.

Lemma dict_get_elem {V} (d : PyDict.t V) k v : PyDict.get d k = Some v → (k, v) ∈ d.
Proof.
  induction d as [|[k' v'] d IH]; simpl; [done|].
  destruct (String.eqb_spec k' k) as [->|_].
  - intros [= ->]. by left.
  - intros H. right. by apply IH.
Qed.

Lemma dict_get_NoDup {V} (d : PyDict.t V) k v :
  NoDup (PyDict.keys d) → (k, v) ∈ d → PyDict.get d k = Some v.
Proof.
  unfold PyDict.keys. induction d as [|[k' v'] d IH]; simpl.
  - by intros _ ?%elem_of_nil.
  - intros [Hk' Hd]%NoDup_cons [Heq|Hin]%elem_of_cons.
    + simplify_eq. by rewrite String.eqb_refl.
    + destruct (String.eqb_spec k' k) as [->|_]; [|by apply IH].
      exfalso. apply Hk'. apply list_elem_of_In, in_map_iff.
      exists (k, v). split; [done|]. by apply list_elem_of_In.
Qed.

Lemma dict_keys_set {V} (d : PyDict.t V) k v :
  PyDict.keys (PyDict.set d k v)
  = if PyDict.mem d k then PyDict.keys d else PyDict.keys d ++ [k].
Proof.
  unfold PyDict.keys, PyDict.mem. induction d as [|[k' v'] d IH]; simpl; [done|].
  destruct (String.eqb k' k) eqn:E; simpl; [done|].
  rewrite IH. by destruct (PyDict.get d k).
Qed.

Lemma dict_set_NoDup {V} (d : PyDict.t V) k v :
  NoDup (PyDict.keys d) → NoDup (PyDict.keys (PyDict.set d k v)).
Proof.
  intros Hd. rewrite dict_keys_set. unfold PyDict.mem.
  destruct (PyDict.get d k) eqn:Hget; [done|].
  apply NoDup_app. split; [done|]. split; [|apply NoDup_singleton].
  intros x Hx ->%list_elem_of_singleton.
  apply dict_keys_get in Hx as [? ?]. congruence.
Qed.

Lemma fold_bump_NoDup w bucket m :
  NoDup (PyDict.keys m) → NoDup (PyDict.keys (fold_left (bump w) bucket m)).
Proof.
  revert m. induction bucket as [|x bucket IH]; intros m Hm; simpl; [done|].
  apply IH. by apply dict_set_NoDup.
Qed.

Lemma matching_sessions_NoDup idx qs : NoDup (PyDict.keys (matching_sessions idx qs)).
Proof.
  unfold matching_sessions.
  assert (NoDup (PyDict.keys ([] : PyDict.t Q))) as Hnil by constructor.
  revert Hnil. generalize ([] : PyDict.t Q) as m.
  induction qs as [|q qs IH]; intros m Hm; simpl; [done|].
  apply IH. unfold score_keyword, partial_match.
  assert (NoDup (PyDict.keys (direct_match idx (PyStr.lower q) m))) as Hd.
  { unfold direct_match. destruct (PyDict.get _ _); [|done]. by apply fold_bump_NoDup. }
  revert Hd. generalize (direct_match idx (PyStr.lower q) m) as m'.
  generalize (keywords idx) as kws.
  induction kws as [|[ik bucket] kws IHk]; intros m' Hm'; simpl; [done|].
  apply IHk. destruct (_ || _); [|done]. by apply fold_bump_NoDup.
Qed.

Lemma partial_match_keys_iff idx q m s :
  s ∈ PyDict.keys (partial_match idx q m) ↔
  s ∈ PyDict.keys m ∨
  ∃ ik bucket, (ik, bucket) ∈ keywords idx ∧ partial_test q ik = true ∧ s ∈ bucket.
Proof.
  unfold partial_match. generalize (keywords idx) as kws. intros kws.
  revert m. induction kws as [|[ik bucket] kws IH]; intros m; simpl.
  - split; [by left|]. intros [?|(? & ? & ?%elem_of_nil & _)]; done.
  - rewrite IH. fold (partial_test q ik).
    destruct (partial_test q ik) eqn:Htest.
    + rewrite fold_bump_keys. split.
      * intros [[Hs|Hs]|(ik' & b' & Hin & Ht & Hs)]; [|by left|].
        -- right. exists ik, bucket. split; [by left|done].
        -- right. exists ik', b'. split; [by right|done].
      * intros [Hs|(ik' & b' & [Heq|Hin]%elem_of_cons & Ht & Hs)].
        -- left. by right.
        -- simplify_eq. left. by left.
        -- right. eauto.
    + split.
      * intros [Hs|(ik' & b' & Hin & Ht & Hs)]; [by left|].
        right. exists ik', b'. split; [by right|done].
      * intros [Hs|(ik' & b' & [Heq|Hin]%elem_of_cons & Ht & Hs)].
        -- by left.
        -- simplify_eq. congruence.
        -- right. eauto.
Qed.

Lemma score_keyword_keys idx m q s :
  s ∈ PyDict.keys (score_keyword idx m q) ↔
  s ∈ PyDict.keys m ∨ matched_by (keywords idx) q s.
Proof.
  unfold score_keyword, matched_by. rewrite partial_match_keys_iff.
  unfold direct_match.
  destruct (PyDict.get (keywords idx) (PyStr.lower q)) as [bucket|] eqn:Hget; [|done].
  rewrite fold_bump_keys. split; [|tauto].
  intros [[Hs|Hs]|Hs]; [|by left|by right].
  right. exists (PyStr.lower q), bucket.
  split; [by apply dict_get_elem|]. split; [|done].
  unfold partial_test. by rewrite contains_refl.
Qed.

Lemma matching_sessions_keys idx qs m s :
  s ∈ PyDict.keys (fold_left (score_keyword idx) qs m) ↔
  s ∈ PyDict.keys m ∨ ∃ q, q ∈ qs ∧ matched_by (keywords idx) q s.
Proof.
  revert m. induction qs as [|q qs IH]; intros m; simpl.
  - split; [by left|]. intros [?|(? & ?%elem_of_nil & _)]; done.
  - rewrite IH, score_keyword_keys. split.
    + intros [[?|?]|(q' & ? & ?)]; [by left|right..].
      * exists q. split; [by left|done].
      * exists q'. split; [by right|done].
    + intros [?|(q' & [->|?]%elem_of_cons & ?)]; [by left; left|by left; right|].
      right. eauto.
Qed.

(** X1. [search_by_keywords] lists exactly the sessions that some bucket
    lists whose key is a substring of a query keyword, lowered, or contains
    it (the exact bucket is one of these). A query without keywords, and a
    search in an index without buckets, find nothing. *)
Theorem search_by_keywords_finds idx qs sid :
  sid ∈ search_by_keywords idx qs ↔ ∃ q, q ∈ qs ∧ matched_by (keywords idx) q sid.
Proof.
  rewrite search_by_keywords_perm. unfold matching_sessions.
  rewrite matching_sessions_keys. split; [|by right].
  intros [?%elem_of_nil|?]; done.
Qed.

Lemma StronglySorted_lookup {A} (R : relation A) l i j x y :
  StronglySorted R l → i < j → l !! i = Some x → l !! j = Some y → R x y.
Proof.
  intros Hsorted. revert i j.
  induction Hsorted as [|a l Hsorted IH Hall]; intros i j Hij Hi Hj; [done|].
  destruct j as [|j]; [lia|]. destruct i as [|i]; simpl in *.
  - simplify_eq. apply (proj1 (Forall_forall _ _) Hall).
    by eapply list_elem_of_lookup_2.
  - eapply (IH i j); [lia|done..].
Qed.

(** X2. The result of [search_by_keywords] names no session twice, and
    scores fall along it: a session that stands before another has at
    least the score of the other. *)
Theorem search_by_keywords_ranked idx qs :
  NoDup (search_by_keywords idx qs) ∧
  ∀ i j a b,
    i < j →
    search_by_keywords idx qs !! i = Some a →
    search_by_keywords idx qs !! j = Some b →
    (score idx qs b <= score idx qs a)%Q.
Proof.
  split.
  - rewrite search_by_keywords_perm. apply matching_sessions_NoDup.
  - intros i j a b Hij Ha Hb. unfold search_by_keywords in Ha, Hb.
    rewrite list_lookup_fmap in Ha, Hb.
    destruct (PyList.sorted_desc by_score (matching_sessions idx qs) !! i)
      as [[a' va]|] eqn:Hi; simplify_eq/=.
    destruct (PyList.sorted_desc by_score (matching_sessions idx qs) !! j)
      as [[b' vb]|] eqn:Hj; simplify_eq/=.
    pose proof (StronglySorted_lookup _ _ _ _ _ _
                  (matching_sessions_ranked idx qs) Hij Hi Hj) as Hle.
    simpl in Hle.
    assert (∀ s v, (s, v) ∈ PyList.sorted_desc by_score (matching_sessions idx qs) →
                   score idx qs s = v) as Hscore.
    { intros s v Hin. rewrite sorted_desc_perm in Hin.
      unfold score, PyDict.get_default.
      by rewrite (dict_get_NoDup _ _ _ (matching_sessions_NoDup idx qs) Hin). }
    rewrite (Hscore a va) by (by eapply list_elem_of_lookup_2).
    rewrite (Hscore b vb) by (by eapply list_elem_of_lookup_2).
    done.
Qed.

End SearchMore.

(** ** The keyword index: what [add_conversation] keeps *)

Section IndexMore.
Import ConversationIndex.

Lemma index_keyword_present sid kws kw :
  in_bucket kws kw sid → index_keyword sid kws kw = kws.
Proof.
  intros (bucket & Hget & Hin). unfold index_keyword, PyDict.mem, PyDict.get_default.
  rewrite Hget. simpl. rewrite Hget. by case_bool_decide.
Qed.

Lemma fold_index_keyword_present sid new kws :
  (∀ k, k ∈ new → in_bucket kws k sid) →
  fold_left (index_keyword sid) new kws = kws.
Proof.
  induction new as [|kw new IH]; intros Hall; simpl; [done|].
  rewrite index_keyword_present by (apply Hall; by left).
  apply IH. intros k Hk. apply Hall. by right.
Qed.

(** X3. Adding a conversation a second time with the same keywords,
    timestamp and count leaves the index as the first addition made it. *)
Theorem add_conversation_idempotent idx sid kws ts n :
  add_conversation (add_conversation idx sid kws ts n) sid kws ts n
  = add_conversation idx sid kws ts n.
Proof.
  pose proof (in_bucket_add idx sid kws ts n) as Hadd.
  unfold add_conversation in *. simpl in *. f_equal.
  - apply insert_insert_eq.
  - apply fold_index_keyword_present. intros k Hk.
    apply Hadd. by right.
Qed.

Lemma index_keyword_tidy sid kws kw : tidy kws → tidy (index_keyword sid kws kw).
Proof.
  intros [Hkeys Hbuckets].
  unfold index_keyword, PyDict.mem, PyDict.get_default.
  destruct (PyDict.get kws kw) as [b|] eqn:Hget.
  - rewrite Hget. case_bool_decide as Hin; [done|]. split.
    + by apply dict_set_NoDup.
    + intros k bucket. rewrite dict_get_set. case_decide as Hk.
      * intros [= <-]. apply NoDup_app. split; [by eapply Hbuckets|].
        split; [|apply NoDup_singleton].
        by intros x Hx ->%list_elem_of_singleton.
      * apply Hbuckets.
  - rewrite dict_get_set_eq. simpl.
    assert (tidy (PyDict.set kws kw [])) as [Hkeys' Hbuckets'].
    { split; [by apply dict_set_NoDup|].
      intros k bucket. rewrite dict_get_set. case_decide.
      - intros [= <-]. constructor.
      - apply Hbuckets. }
    split.
    + by apply dict_set_NoDup.
    + intros k bucket. rewrite dict_get_set. case_decide.
      * intros [= <-]. apply NoDup_singleton.
      * apply Hbuckets'.
Qed.

(** X4. In every state of the index reached from the empty one by
    [add_conversation], the keys of the inverted map are distinct and no
    bucket lists a session twice: re-adding a session does not repeat it in
    a bucket, so an exact match counts once. *)
Theorem reachable_index_tidy idx : reachable idx → tidy (keywords idx).
Proof.
  induction 1 as [|idx sid new ts n Hreach IH].
  - split; [constructor|]. intros k bucket. discriminate.
  - unfold add_conversation; simpl.
    revert IH. generalize (keywords idx) as kws.
    induction new as [|kw new IHnew]; intros kws Hkws; simpl; [done|].
    by apply IHnew, index_keyword_tidy.
Qed.

Lemma reachable_index_tidy_witness : reachable stale_index ∧ tidy (keywords stale_index).
Proof. split; [repeat constructor|]. apply reachable_index_tidy. repeat constructor. Defined.

(** X5. [add_conversation] overwrites the entry of the session it adds,
    leaves the entry of every other session as it was, and takes no
    session out of any bucket. *)
Theorem add_conversation_frame idx sid kws ts n :
  conversations (add_conversation idx sid kws ts n) !! sid = Some (Entry ts n kws) ∧
  (∀ other, other ≠ sid →
     conversations (add_conversation idx sid kws ts n) !! other
     = conversations idx !! other) ∧
  (∀ k s, in_bucket (keywords idx) k s →
     in_bucket (keywords (add_conversation idx sid kws ts n)) k s).
Proof.
  split; [|split].
  - apply lookup_insert_eq.
  - intros other Hne. unfold add_conversation; simpl. by rewrite lookup_insert_ne.
  - intros k s Hin. apply in_bucket_add. by left.
Qed.

End IndexMore.

(** ** The session store: overwriting, other sessions, the listing *)

Section StoreMore.
Import MemoryManager.

Lemma string_length_append s t :
  String.length (s +:+ t) = String.length s + String.length t.
Proof.
  induction s as [|c s IH]; [done|]. rewrite append_cons. simpl. by rewrite IH.
Qed.












Lemma omap_length_le {A B} (f : A → option B) l : length (omap f l) ≤ length l.
Proof.
  induction l as [|x l IH]; [done|].
  cbn [omap list_omap]. destruct (f x); cbn [length]; lia.
Qed.

(** X9. When reading a [*.json] entry raises nothing but what the listing
    catches, [list_conversations] returns at most [limit] summaries, for a
    limit that is not negative. *)
Theorem list_conversations_bounded mm limit :
  (0 ≤ limit)%Z →
  (∀ f, f ∈ glob_json (conversations_dir mm) → listable f) →
  ∃ l, list_conversations mm limit = Ok l ∧ (Z.of_nat (length l) ≤ limit)%Z.
Proof.
  intros Hlimit Hall. rewrite list_conversations_listed by done.
  eexists. split; [done|]. rewrite slice_to_take by done.
  etrans; [apply inj_le, omap_length_le|]. rewrite length_take. lia.
Qed.

Lemma list_conversations_bounded_witness :
  ∃ l, list_conversations eleven_files 3 = Ok l ∧ (Z.of_nat (length l) ≤ 3)%Z.
Proof.
  apply list_conversations_bounded; [lia|].
  intros f Hf e He. apply list_elem_of_filter in Hf as [_ Hf].
  cbn [eleven_files conversations_dir] in Hf.
  repeat (apply elem_of_cons in Hf as [->|Hf]; [try discriminate He|]).
  - injection He as <-. left.
  - by apply elem_of_nil in Hf.
Defined.

End StoreMore.

(** ** Index and store together *)

Section ConsistencyMore.
Import MemoryManager.










End ConsistencyMore.

(** ** The summary of a conversation *)

Section SummaryMore.
Import MemoryManager.

Variable dict_slice_error : py_exn.











End SummaryMore.


(** ** The search of the transcripts *)

Section TextSearchMore.
Import MemoryManager.

Variable dict_slice_error : py_exn.

Lemma first_match_messages kw M :
  first_match kw (map message_json M)
  = Return (message_json <$> List.find (mentions kw) M).
Proof.
  induction M as [|m M IH]; [done|].
  cbn [map first_match List.find]. unfold mentions at 1.
  cbn [message_json PyValue.get json_get lift mbind outcome_bind].
  change (PyDict.get_default _ "content" (JStr "")) with (JStr (content m)).
  cbn [PyValue.lower mbind outcome_bind]. rewrite IH.
  by destruct (PyStr.contains kw (PyStr.lower (content m))).
Qed.

Lemma search_file_record kw f d M results :
  text f = Parsed (JDict d) →
  PyDict.get d "messages" = Some (messages_json M) →
  search_file dict_slice_error kw f results
  = Return (results ++
      option_list
        (match List.find (mentions kw) M with
         | Some m =>
             Some {| hit_session_id :=
                       PyDict.get_default d "session_id" (JStr (stem (name f)));
                     hit_timestamp := PyDict.get_default d "timestamp" JNull;
                     hit_message_count := length M;
                     hit_matched_content := JStr (PyStr.take 100 (content m)) |}
         | None => None
         end)).
Proof.
  intros Htext Hget. unfold search_file. rewrite Htext.
  assert (PyDict.get_default d "messages" (JList []) = messages_json M) as Hm
    by (unfold PyDict.get_default; by rewrite Hget).
  cbn [json_load lift mbind outcome_bind PyValue.get json_get]. rewrite Hm.
  unfold messages_json. cbn [PyValue.iter mbind outcome_bind].
  rewrite first_match_messages. cbn [mbind outcome_bind].
  destruct (List.find (mentions kw) M) as [m|]; cbn [fmap option_fmap option_map].
  - cbn [PyValue.len mbind outcome_bind]. by rewrite length_map.
  - change (option_list None) with (@nil search_hit). by rewrite app_nil_r.
Qed.

(** One turn of the loop on a file whose reading raises what is caught, or
    on the record of a conversation, while the results are fewer than the
    limit. *)
Lemma search_turn_answer kw limit f a results :
  file_answer kw f a →
  (Z.of_nat (length results) < limit)%Z →
  try_catch
    (results' ← search_file dict_slice_error kw f results;
     mret (results', (limit <=? Z.of_nat (length results'))%Z))
    [JSONDecodeError; IOError]
    (mret (results, false))
  = Return (results ++ option_list a,
            (limit <=? Z.of_nat (length (results ++ option_list a)))%Z).
Proof.
  intros [e He Hcaught|d M Htext Hget] Hfew.
  - unfold search_file. rewrite He. cbn [lift mbind outcome_bind try_catch].
    rewrite bool_decide_eq_true_2 by done.
    change (option_list None) with (@nil search_hit). rewrite app_nil_r.
    cbn [mret outcome_ret]. f_equal. f_equal. symmetry. by apply Z.leb_gt.
  - by rewrite (search_file_record _ _ _ _ _ Htext Hget).
Qed.

Lemma search_loop_answers kw limit files answers results :
  Forall2 (file_answer kw) files answers →
  (Z.of_nat (length results) < limit)%Z →
  search_loop dict_slice_error kw limit files results
  = Return (take (Z.to_nat limit) (results ++ omap id answers)).
Proof.
  intros Hanswers. revert results.
  induction Hanswers as [|f a files answers Ha _ IH]; intros results Hfew.
  - cbn. rewrite app_nil_r, take_ge by lia. done.
  - cbn [search_loop]. rewrite (search_turn_answer _ _ _ _ _ Ha Hfew).
    destruct a as [h|]; cbn [omap list_omap id];
      [change (option_list (Some h)) with [h]
      |change (option_list None) with (@nil search_hit)].
    + replace (results ++ h :: omap id answers)
        with ((results ++ [h]) ++ omap id answers) by (by rewrite <- (assoc_L (++))).
      destruct (Z.leb_spec limit (Z.of_nat (length (results ++ [h])))) as [Hfull|Hroom].
      * rewrite take_app_length'; [done|]. rewrite length_app in *. simpl in *. lia.
      * by apply IH.
    + rewrite app_nil_r. destruct (Z.leb_spec limit (Z.of_nat (length results))); [lia|].
      by apply IH.
Qed.

Lemma search_loop_raises kw limit pre answers f j rest results :
  Forall2 (file_answer kw) pre answers →
  (Z.of_nat (length (results ++ omap id answers)) < limit)%Z →
  text f = Parsed j →
  is_dict j = false →
  search_loop dict_slice_error kw limit (pre ++ f :: rest) results
  = Throw (Std AttributeError).
Proof.
  intros Hanswers. revert results.
  induction Hanswers as [|f' a files answers Ha _ IH]; intros results Hfew Htext Hj.
  - cbn [app search_loop]. unfold search_file. rewrite Htext.
    by destruct j.
  - cbn [app search_loop].
    assert (Z.of_nat (length results) < limit)%Z as Hfew'
      by (rewrite length_app in Hfew; lia).
    rewrite (search_turn_answer _ _ _ _ _ Ha Hfew').
    destruct a as [h|]; cbn [omap list_omap id] in *;
      [change (option_list (Some h)) with [h]
      |change (option_list None) with (@nil search_hit)].
    + replace (results ++ h :: omap id answers)
        with ((results ++ [h]) ++ omap id answers) in Hfew
        by (by rewrite <- (assoc_L (++))).
      destruct (Z.leb_spec limit (Z.of_nat (length (results ++ [h])))) as [Hfull|Hroom].
      * rewrite !length_app in *. simpl in *. lia.
      * by apply IH.
    + rewrite app_nil_r. destruct (Z.leb_spec limit (Z.of_nat (length results))); [lia|].
      by apply IH.
Qed.

(** X13. Over a directory whose [*.json] entries are records of
    conversations, or entries whose reading raises what the search catches
    (a [JSONDecodeError] for text that is no JSON, an [IOError] for a file
    that cannot be opened), a search with a limit of at least 1 raises
    nothing and returns, in the order of the directory, the hits of the
    first [limit] conversations that have a message holding the keyword,
    whatever the case of either: one hit per conversation, with the first
    100 characters of the first such message. The entries whose reading
    raises are passed over. *)
Theorem search_conversations_hits mm keyword limit answers :
  Forall2 (file_answer (PyStr.lower keyword)) (glob_json (conversations_dir mm))
    answers →
  (1 ≤ limit)%Z →
  search_conversations dict_slice_error mm keyword limit
  = Return (take (Z.to_nat limit) (omap id answers)).
Proof.
  intros Hanswers Hlimit. unfold search_conversations.
  rewrite (search_loop_answers _ _ _ _ _ Hanswers); [done|]. simpl. lia.
Qed.

(** X14. A conversation file that holds a JSON document other than an
    object is not handled: [load_conversation] and
    [get_conversation_summary] raise [AttributeError] for its session, and
    so does a search as soon as it comes to the file. *)
Theorem non_object_file_raises mm sid j keyword limit pre answers f rest :
  is_dict j = false →
  read_file (conversations_dir mm) (sid +:+ ".json") = Some (Parsed j) →
  glob_json (conversations_dir mm) = pre ++ f :: rest →
  text f = Parsed j →
  Forall2 (file_answer (PyStr.lower keyword)) pre answers →
  (Z.of_nat (length (omap id answers)) < limit)%Z →
  load_conversation mm sid = Raise AttributeError ∧
  get_conversation_summary dict_slice_error mm sid = Throw (Std AttributeError) ∧
  search_conversations dict_slice_error mm keyword limit = Throw (Std AttributeError).
Proof.
  intros Hj Hread Hglob Htext Hanswers Hfew. split; [|split].
  - unfold load_conversation. rewrite Hread. by destruct j.
  - unfold get_conversation_summary. rewrite Hread. by destruct j.
  - unfold search_conversations. rewrite Hglob.
    by apply (search_loop_raises _ _ _ answers _ j).
Qed.

End TextSearchMore.

Lemma search_conversations_hits_witness :
  MemoryManager.search_conversations TypeError mixed_files "HIKING" 5
  = Return [ {| MemoryManager.hit_session_id := JStr "s1";
                MemoryManager.hit_timestamp := JStr "2024-05-01T12:00:00";
                MemoryManager.hit_message_count := 2;
                MemoryManager.hit_matched_content := JStr "I like hiking" |} ].
Proof.
  apply (search_conversations_hits TypeError mixed_files "HIKING" 5
           [Some {| MemoryManager.hit_session_id := JStr "s1";
                    MemoryManager.hit_timestamp := JStr "2024-05-01T12:00:00";
                    MemoryManager.hit_message_count := 2;
                    MemoryManager.hit_matched_content := JStr "I like hiking" |};
            None; None]);
    [|lia].
  constructor; [|constructor; [|constructor; [|constructor]]].
  - apply (answer_record "hiking" _
             [ ("timestamp", JStr "2024-05-01T12:00:00");
               ("session_id", JStr "s1");
               ("messages", MemoryManager.messages_json hiking);
               ("message_count", JInt 2) ] hiking); reflexivity.
  - apply (answer_skipped "hiking" _ JSONDecodeError); [reflexivity|left].
  - apply (answer_skipped "hiking" _ IOError); [reflexivity|right; left].
Defined.

Lemma non_object_file_raises_witness :
  MemoryManager.load_conversation with_list_file "s2" = Raise AttributeError ∧
  MemoryManager.get_conversation_summary TypeError with_list_file "s2"
  = Throw (Std AttributeError) ∧
  MemoryManager.search_conversations TypeError with_list_file "python" 5
  = Throw (Std AttributeError).
Proof.
  apply (non_object_file_raises TypeError with_list_file "s2" (JList []) "python" 5
           [MemoryManager.File "s1.json" 1
              (Parsed (JDict [ ("session_id", JStr "s1");
                               ("messages", MemoryManager.messages_json hiking) ]))]
           [None] (MemoryManager.File "s2.json" 2 (Parsed (JList []))) []);
    try reflexivity.
  constructor; [|constructor].
  apply (answer_record "python" _
           [ ("session_id", JStr "s1");
             ("messages", MemoryManager.messages_json hiking) ] hiking); reflexivity.
Defined.

(** ** Recall: from a query to the summaries of past conversations *)

Section RecallMore.
Import ConversationIndex MemoryManager.

Variable dict_slice_error : py_exn.







End RecallMore.


(** ** The profile: manual entries, preferences, and the way to JSON and back *)

Section ProfileMore.
Import UserProfileManager.

Lemma update_profile_preferences now p e k :
  preferences (update_profile now p e) !! k
  = match extracted_preferences e with
    | Some new =>
        match new !! k with
        | Some v => Some v
        | None => preferences p !! k
        end
    | None => preferences p !! k
    end.
Proof.
  unfold update_profile; simpl. destruct (extracted_preferences e) as [new|]; [|done].
  rewrite lookup_union. by destruct (new !! k), (preferences p !! k).
Qed.

Lemma update_all_preferences_kept p calls k :
  is_Some (preferences p !! k) →
  is_Some (preferences (update_all p calls) !! k).
Proof.
  unfold update_all. revert p.
  induction calls as [|[now e] calls IH]; intros p Hk; simpl; [done|].
  apply IH. rewrite update_profile_preferences.
  destruct (extracted_preferences e) as [new|]; [|done].
  by destruct (new !! k).
Qed.

Lemma update_all_preferences_silent p calls k :
  Forall (silent_on k) calls →
  preferences (update_all p calls) !! k = preferences p !! k.
Proof.
  unfold update_all. revert p.
  induction calls as [|[now e] calls IH]; intros p Hall; simpl; [done|].
  apply Forall_cons in Hall as [He Hall]. rewrite IH by done.
  rewrite update_profile_preferences. unfold silent_on in He; simpl in He.
  destruct (extracted_preferences e) as [new|]; [|done]. by rewrite He.
Qed.

(** X16. What [add_interest] and [add_skill] enter by hand stays: the
    entry is in the profile after any run of later merges, nothing that
    was in the profile is lost by the entry, and the entry of an interest
    leaves skills, name and preferences alone (and the other way round). *)
Theorem manual_entries_survive now p entry calls :
  entry ∈ as_set (interests (update_all (add_interest now p entry) calls)) ∧
  entry ∈ as_set (skills (update_all (add_skill now p entry) calls)) ∧
  as_set (interests (add_interest now p entry)) = as_set (interests p) ∪ {[entry]} ∧
  as_set (skills (add_skill now p entry)) = as_set (skills p) ∪ {[entry]} ∧
  skills (add_interest now p entry) = skills p ∧
  interests (add_skill now p entry) = interests p ∧
  preferred_name (add_interest now p entry) = preferred_name p ∧
  preferred_name (add_skill now p entry) = preferred_name p.
Proof.
  split; [|split; [|done]].
  - apply (proj1 (update_all_grows (add_interest now p entry) calls)).
    simpl. apply elem_of_union_r. by apply elem_of_singleton.
  - apply (proj2 (update_all_grows (add_skill now p entry) calls)).
    simpl. apply elem_of_union_r. by apply elem_of_singleton.
Qed.

(** X17. A preference that [set_preference] stored is read back, no other
    key changes, and no run of later merges drops the key: its value stays
    as long as no merge brings a value for the same key, and is that of
    the last merge that does. *)
Theorem preference_kept now p key v calls :
  preferences (set_preference now p key v) !! key = Some v ∧
  (∀ other, other ≠ key →
     preferences (set_preference now p key v) !! other = preferences p !! other) ∧
  is_Some (preferences (update_all (set_preference now p key v) calls) !! key) ∧
  (Forall (silent_on key) calls →
   preferences (update_all (set_preference now p key v) calls) !! key = Some v) ∧
  (∀ now' e new v',
     extracted_preferences e = Some new → new !! key = Some v' →
     preferences (update_profile now' (update_all (set_preference now p key v) calls) e)
       !! key = Some v').
Proof.
  assert (preferences (set_preference now p key v) !! key = Some v) as Hset
    by (simpl; apply lookup_insert_eq).
  split; [done|]. split; [|split; [|split]].
  - intros other Hne. simpl. by apply lookup_insert_ne.
  - apply update_all_preferences_kept. by rewrite Hset.
  - intros Hsilent. by rewrite update_all_preferences_silent.
  - intros now' e new v' He Hnew. rewrite update_profile_preferences, He.
    by rewrite Hnew.
Qed.

(** X18. The way to JSON and back: when [list] of a set lists the members
    of the set, [from_json_data] of what [to_json_serializable] gives is
    the profile itself if its collections are sets, and in any case the
    profile with its collections turned into sets, with the same members. *)
Theorem profile_json_round_trip listing p :
  (∀ s : gset string, list_to_set (listing s) = s) →
  from_json_data (to_json_serializable listing p) = from_json_data p ∧
  (set_valued p → from_json_data (to_json_serializable listing p) = p) ∧
  as_set (interests (from_json_data p)) = as_set (interests p) ∧
  as_set (skills (from_json_data p)) = as_set (skills p).
Proof.
  intros Hlisting.
  assert (∀ c, list_to_set_field (set_to_list listing c) = list_to_set_field c) as Hfield.
  { intros [s|l]; simpl; [|done]. by rewrite Hlisting. }
  assert (from_json_data (to_json_serializable listing p) = from_json_data p) as Heq.
  { unfold from_json_data, to_json_serializable; simpl. by rewrite !Hfield. }
  split; [done|]. split; [|split].
  - intros ([i Hi] & [s Hs] & [h Hh]). rewrite Heq.
    destruct p; simpl in *. by subst.
  - simpl. by destruct (interests p).
  - simpl. by destruct (skills p).
Qed.

End ProfileMore.

Lemma profile_json_round_trip_witness :
  UserProfileManager.from_json_data
    (UserProfileManager.to_json_serializable elements chess_player)
  = chess_player.
Proof.
  apply (profile_json_round_trip elements chess_player).
  - intros s. apply list_to_set_elements_L.
  - repeat split; eexists; reflexivity.
Defined.

(** ** Permissions: temporary grants, the table, the config file *)

Section PermissionMore.
Import PermissionManager.

Lemma value_inj : Inj (=) (=) value.
Proof. intros [] []; simpl; intros H; try done; discriminate H. Qed.

Lemma check_permission_level now self op :
  (check_permission now self op).1
  = match temp_permissions self !! value op with
    | Some (perm, expiry) =>
        if decide (expiry < now)%Z then default DENY (permissions self !! value op)
        else perm
    | None => default DENY (permissions self !! value op)
    end.
Proof.
  unfold check_permission. rewrite cleanup_lookup.
  destruct (temp_permissions self !! value op) as [[perm expiry]|]; [|done].
  by case_decide.
Qed.

Lemma check_permission_state now self op :
  (check_permission now self op).2 = _cleanup_expired_permissions now self.
Proof.
  unfold check_permission.
  by destruct (temp_permissions (_cleanup_expired_permissions now self) !! value op)
    as [[perm expiry]|].
Qed.

(** X19. A temporary grant answers [ALLOW] for its operation up to and
    with the instant of its expiry, whatever the table says and even if the
    table is set to [DENY] meanwhile; after the expiry the table decides
    again and the check removes the grant. *)
Theorem temporary_grant_window now self op duration later level :
  ((later ≤ now + duration)%Z →
   (check_permission later (grant_temporary_permission now self op duration) op).1
   = ALLOW ∧
   (check_permission later
      (set_permission (grant_temporary_permission now self op duration) op level)
      op).1 = ALLOW) ∧
  ((now + duration < later)%Z →
   (check_permission later (grant_temporary_permission now self op duration) op).1
   = default DENY (permissions self !! value op) ∧
   temp_permissions
     (check_permission later (grant_temporary_permission now self op duration) op).2
     !! value op = None).
Proof.
  split; intros Hlater.
  - rewrite !check_permission_level. simpl. rewrite !lookup_insert_eq.
    by rewrite !decide_False by lia.
  - rewrite check_permission_level, check_permission_state, cleanup_lookup. simpl.
    rewrite !lookup_insert_eq. by rewrite !decide_True by lia.
Qed.

(** X20. [set_permission] decides the answer for its operation as soon as
    no temporary grant for it runs, and never changes the answer for
    another operation. *)
Theorem set_permission_frame now self op level :
  (no_live_grant now self op →
   (check_permission now (set_permission self op level) op).1 = level) ∧
  (∀ other, other ≠ op →
     (check_permission now (set_permission self op level) other).1
     = (check_permission now self other).1).
Proof.
  split.
  - intros Hnone. rewrite check_permission_level. simpl. rewrite lookup_insert_eq.
    destruct (temp_permissions self !! value op) as [[perm expiry]|] eqn:Hget; [|done].
    by rewrite decide_True by eauto.
  - intros other Hne. rewrite !check_permission_level. simpl.
    rewrite lookup_insert_ne; [done|]. intros H. apply Hne. symmetry.
    by apply value_inj.
Qed.

(** X21. A check changes no answer: the table is as before, and a check
    made later, of any operation, answers what it would have answered
    without the earlier check. *)
Theorem check_permission_stable now later self op other :
  (now ≤ later)%Z →
  permissions (check_permission now self op).2 = permissions self ∧
  (check_permission later (check_permission now self op).2 other).1
  = (check_permission later self other).1.
Proof.
  intros Hlater. rewrite check_permission_state. split; [done|].
  rewrite !check_permission_level, cleanup_lookup. simpl.
  destruct (temp_permissions self !! value other) as [[perm expiry]|]; [|done].
  destruct (decide (expiry < now)%Z); [|done].
  by rewrite decide_True by lia.
Qed.

Lemma level_of_name_name level : level_of_name (JStr (name level)) = Some level.
Proof. by destruct level. Qed.

Lemma read_items_saved (l : list (string * PermissionLevel)) table :
  NoDup l.*1 →
  read_items (map (fun item => (item.1, JStr (name item.2))) l) table
  = Some (list_to_map l ∪ table).
Proof.
  revert table. induction l as [|[k level] l IH]; intros table Hl.
  - simpl. by rewrite (left_id_L ∅ (∪)).
  - apply NoDup_cons in Hl as [Hk Hl]. cbn [map read_items fst snd].
    rewrite level_of_name_name. cbn [mbind option_bind]. rewrite IH by done.
    f_equal. cbn [list_to_map foldr]. simpl.
    rewrite <- insert_union_r by (by apply not_elem_of_list_to_map_1).
    by rewrite insert_union_l.
Qed.

Lemma read_items_unknown items table k v :
  (k, v) ∈ items → level_of_name v = None → read_items items table = None.
Proof.
  revert table. induction items as [|[k' v'] items IH]; intros table Hin Hv.
  - by apply elem_of_nil in Hin.
  - cbn [read_items]. apply elem_of_cons in Hin as [Heq|Hin].
    + simplify_eq. by rewrite Hv.
    + destruct (level_of_name v'); [|done]. by apply IH.
Qed.

(** X22. The config file that [save_permissions] writes loads to the
    table that was saved, so a manager set up from it answers every check
    as the table says. *)
Theorem saved_permissions_load self :
  read_config (Some (save_permissions self)) = Some (Some (permissions self)) ∧
  permissions (init (read_config (Some (save_permissions self)))) = permissions self ∧
  ∀ now op,
    (check_permission now (init (read_config (Some (save_permissions self)))) op).1
    = default DENY (permissions self !! value op).
Proof.
  assert (read_config (Some (save_permissions self)) = Some (Some (permissions self)))
    as Hread.
  { unfold read_config, save_permissions. cbn [json_load read_table].
    rewrite read_items_saved by apply NoDup_fst_map_to_list.
    by rewrite (right_id_L ∅ (∪)), list_to_map_to_list. }
  split; [done|]. rewrite Hread. split; [done|].
  intros now op. by rewrite check_permission_level.
Qed.

(** X23. One value of the config file that is not the name of a level
    discards the whole file: the manager starts with the default table,
    and the entries of the file that were well formed are lost with it. *)
Theorem unknown_level_resets d k v :
  (k, v) ∈ d → level_of_name v = None →
  init (read_config (Some (Parsed (JDict d)))) = init None.
Proof.
  intros Hin Hv. unfold read_config. cbn [json_load read_table].
  by rewrite (read_items_unknown _ _ _ _ Hin Hv).
Qed.

End PermissionMore.

Lemma temporary_grant_window_witness :
  (PermissionManager.check_permission 300
     (PermissionManager.grant_temporary_permission 0 (PermissionManager.init None)
        PermissionManager.FILE_DELETE 300) PermissionManager.FILE_DELETE).1
  = PermissionManager.ALLOW ∧
  (PermissionManager.check_permission 301
     (PermissionManager.grant_temporary_permission 0 (PermissionManager.init None)
        PermissionManager.FILE_DELETE 300) PermissionManager.FILE_DELETE).1
  = PermissionManager.DENY.
Proof.
  split.
  - apply (proj1 (temporary_grant_window 0 (PermissionManager.init None)
                    PermissionManager.FILE_DELETE 300 300 PermissionManager.DENY)).
    reflexivity.
  - apply (proj2 (temporary_grant_window 0 (PermissionManager.init None)
                    PermissionManager.FILE_DELETE 300 301 PermissionManager.DENY)).
    reflexivity.
Defined.

Lemma set_permission_frame_witness :
  (PermissionManager.check_permission 301
     (PermissionManager.set_permission lapsed PermissionManager.INTERNET_ACCESS
        PermissionManager.ALLOW) PermissionManager.INTERNET_ACCESS).1
  = PermissionManager.ALLOW.
Proof.
  apply (proj1 (set_permission_frame 301 lapsed PermissionManager.INTERNET_ACCESS
                  PermissionManager.ALLOW)).
  intros perm expiry H. vm_compute in H. injection H as _ <-. reflexivity.
Defined.

Lemma check_permission_stable_witness :
  (PermissionManager.check_permission 10
     (PermissionManager.check_permission 5 lapsed PermissionManager.FILE_READ).2
     PermissionManager.INTERNET_ACCESS).1
  = (PermissionManager.check_permission 10 lapsed PermissionManager.INTERNET_ACCESS).1.
Proof.
  apply (check_permission_stable 5 10 lapsed PermissionManager.FILE_READ
           PermissionManager.INTERNET_ACCESS). lia.
Defined.

Lemma unknown_level_resets_witness :
  PermissionManager.init (PermissionManager.read_config (Some misspelt_config))
  = PermissionManager.init None.
Proof.
  apply (unknown_level_resets _ "file_delete" (JStr "deny")); [|reflexivity].
  apply list_elem_of_further, list_elem_of_here.
Defined.

(** ** The gate before the operating system *)

Section GateMore.
Import PermissionManager.

Variable world : Type.
Variable os_read os_read' : string → world → string + string.
Variable os_write : string → string → world → world + string.
Variable os_remove : string → world → world + string.
Variable os_popen : list string → world → world + string.
Variable os_shell : string → world → world + string.
Variable minute : Z.

Lemma check_permission_pair now self op :
  check_permission now self op
  = ((check_permission now self op).1, _cleanup_expired_permissions now self).
Proof.
  rewrite <- (check_permission_state now self op).
  by destruct (check_permission now self op).
Qed.

(** X24. Without a yes nothing reaches the operating system: when there
    is no confirmation handler, or the handler answers no, each operation
    whose own permission check does not answer [ALLOW] is refused:
    [write_file] and [delete_file] leave the file system as it is and
    return [False], what [read_file] returns does not depend on any file,
    and [launch_by_name] starts nothing. *)
Theorem no_consent_no_effect now pm w path content request_confirmation :
  refuses request_confirmation →
  ((check_permission now pm FILE_WRITE).1 ≠ ALLOW →
   FileManager.write_file world os_write now pm w path content request_confirmation
   = (false, _cleanup_expired_permissions now pm, w)) ∧
  ((check_permission now pm FILE_DELETE).1 ≠ ALLOW →
   FileManager.delete_file world os_remove now pm w path request_confirmation
   = (false, _cleanup_expired_permissions now pm, w)) ∧
  ((check_permission now pm FILE_READ).1 ≠ ALLOW →
   FileManager.read_file world os_read now pm w path request_confirmation
   = FileManager.read_file world os_read' now pm w path request_confirmation) ∧
  ((check_permission now pm APP_LAUNCH).1 ≠ ALLOW →
   AppLauncher.launch_by_name world os_shell "win32" now pm w path request_confirmation
   = (false, _cleanup_expired_permissions now pm, w)).
Proof.
  intros Hno.
  unfold FileManager.write_file, FileManager.delete_file, FileManager.read_file,
    AppLauncher.launch_by_name. cbn [String.eqb Ascii.eqb Bool.eqb negb].
  rewrite (check_permission_pair now pm FILE_WRITE),
    (check_permission_pair now pm FILE_DELETE),
    (check_permission_pair now pm FILE_READ),
    (check_permission_pair now pm APP_LAUNCH).
  destruct request_confirmation as [ask|].
  - rewrite !(Hno ask eq_refl). cbn [negb].
    repeat split; intros Hlevel;
      by match goal with
         | |- context [(check_permission now pm ?op).1] =>
             destruct ((check_permission now pm op).1)
         end.
  - repeat split; intros Hlevel;
      by match goal with
         | |- context [(check_permission now pm ?op).1] =>
             destruct ((check_permission now pm op).1)
         end.
Qed.

(** X25. Where the table denies an operation, or has no entry for it, and
    no temporary grant runs, a yes of the handler does not help: the file
    is neither written nor deleted. A manager set up without a config
    file never deletes a file. *)
Theorem denied_whatever_the_answer now pm w path content request_confirmation :
  (default DENY (permissions pm !! value FILE_WRITE) = DENY →
   no_live_grant now pm FILE_WRITE →
   FileManager.write_file world os_write now pm w path content request_confirmation
   = (false, _cleanup_expired_permissions now pm, w)) ∧
  (default DENY (permissions pm !! value FILE_DELETE) = DENY →
   no_live_grant now pm FILE_DELETE →
   FileManager.delete_file world os_remove now pm w path request_confirmation
   = (false, _cleanup_expired_permissions now pm, w)) ∧
  FileManager.delete_file world os_remove now (init None) w path request_confirmation
  = (false, init None, w).
Proof.
  assert (∀ pm op,
    default DENY (permissions pm !! value op) = DENY → no_live_grant now pm op →
    (check_permission now pm op).1 = DENY) as Hdeny.
  { intros pm0 op Htable Hgrant. rewrite check_permission_level.
    destruct (temp_permissions pm0 !! value op) as [[perm expiry]|] eqn:Hget; [|done].
    by rewrite decide_True by eauto. }
  split; [|split].
  - intros Htable Hgrant. unfold FileManager.write_file.
    by rewrite (check_permission_pair now pm FILE_WRITE),
      (Hdeny pm FILE_WRITE Htable Hgrant).
  - intros Htable Hgrant. unfold FileManager.delete_file.
    by rewrite (check_permission_pair now pm FILE_DELETE),
      (Hdeny pm FILE_DELETE Htable Hgrant).
  - unfold FileManager.delete_file.
    rewrite (check_permission_pair now (init None) FILE_DELETE),
      (Hdeny (init None) FILE_DELETE); [| done | by intros perm expiry H].
    unfold _cleanup_expired_permissions, init, load_permissions,
      _set_default_permissions. cbn [permissions temp_permissions].
    by rewrite map_filter_empty.
Qed.

(** X26. [launch_app] fails open where [launch_by_name] fails closed:
    when the check asks for confirmation and there is no handler,
    [launch_by_name] starts nothing, but [launch_app] starts the program as
    it does after a yes and leaves a grant under which every check of
    [APP_LAUNCH] in the next five minutes answers [ALLOW]. *)
Theorem launch_app_fails_open now grant_now pm w app args :
  (check_permission now pm APP_LAUNCH).1 = REQUIRE_CONFIRMATION →
  AppLauncher.launch_by_name world os_shell "win32" now pm w app None
  = (false, _cleanup_expired_permissions now pm, w) ∧
  (AppLauncher.launch_app world os_popen minute now grant_now pm w app args None).1.1
  = (AppLauncher.launch_app world os_popen minute now grant_now pm w app args
       (Some (fun _ => true))).1.1 ∧
  (AppLauncher.launch_app world os_popen minute now grant_now pm w app args None).2
  = (AppLauncher.launch_app world os_popen minute now grant_now pm w app args
       (Some (fun _ => true))).2 ∧
  (AppLauncher.launch_app world os_popen minute now grant_now pm w app args None).1.2
  = grant_temporary_permission grant_now (_cleanup_expired_permissions now pm)
      APP_LAUNCH (5 * minute) ∧
  ∀ later,
    (later ≤ grant_now + 5 * minute)%Z →
    (check_permission later
       (AppLauncher.launch_app world os_popen minute now grant_now pm w app args None).1.2
       APP_LAUNCH).1 = ALLOW.
Proof.
  intros Hlevel.
  assert ((AppLauncher.launch_app world os_popen minute now grant_now pm w app args None).1.2
          = grant_temporary_permission grant_now (_cleanup_expired_permissions now pm)
              APP_LAUNCH (5 * minute)) as Hgrant.
  { unfold AppLauncher.launch_app.
    rewrite (check_permission_pair now pm APP_LAUNCH), Hlevel.
    by destruct (os_popen _ w). }
  split; [|split; [|split; [|split]]].
  - unfold AppLauncher.launch_by_name. cbn [String.eqb Ascii.eqb Bool.eqb negb].
    by rewrite (check_permission_pair now pm APP_LAUNCH), Hlevel.
  - unfold AppLauncher.launch_app.
    rewrite (check_permission_pair now pm APP_LAUNCH), Hlevel.
    cbn [negb]. by destruct (os_popen _ w).
  - unfold AppLauncher.launch_app.
    rewrite (check_permission_pair now pm APP_LAUNCH), Hlevel.
    cbn [negb]. by destruct (os_popen _ w).
  - done.
  - intros later Hlater. rewrite Hgrant, check_permission_level. simpl.
    rewrite lookup_insert_eq. by rewrite decide_False by lia.
Qed.

End GateMore.

Lemma no_consent_no_effect_witness :
  FileManager.write_file string one_file_write 0
    (PermissionManager.set_permission (PermissionManager.init None)
       PermissionManager.FILE_READ PermissionManager.ALLOW)
    "old text" "notes.txt" "new text" (Some (fun _ => false))
  = (false,
     PermissionManager._cleanup_expired_permissions 0
       (PermissionManager.set_permission (PermissionManager.init None)
          PermissionManager.FILE_READ PermissionManager.ALLOW),
     "old text").
Proof.
  apply (no_consent_no_effect string one_file_read one_file_read one_file_write
           one_file_remove (fun _ w => inl w) 0
           (PermissionManager.set_permission (PermissionManager.init None)
              PermissionManager.FILE_READ PermissionManager.ALLOW)
           "old text" "notes.txt" "new text" (Some (fun _ => false))).
  - intros ask [= <-] prompt. reflexivity.
  - vm_compute. discriminate.
Defined.

Lemma launch_app_fails_open_witness :
  AppLauncher.launch_by_name (list (list string)) log_shell "win32" 0
    (PermissionManager.init None) [] "calc" None
  = (false,
     PermissionManager._cleanup_expired_permissions 0 (PermissionManager.init None),
     []) ∧
  (AppLauncher.launch_app (list (list string)) log_popen 60 0 1
     (PermissionManager.init None) [] "calc" None None).2 = [["calc"]].
Proof.
  split.
  - apply (launch_app_fails_open (list (list string)) log_popen log_shell 60 0 1
             (PermissionManager.init None) [] "calc" None). reflexivity.
  - reflexivity.
Defined.

(** ** The extraction from a conversation never fails *)

Section ExtractionMore.
Import PyStr MemoryManager UserProfileManager.

Lemma foldlM_invariant {A B} (f : A → B → res A) (I : A → Prop) l a :
  I a →
  (∀ a b, b ∈ l → I a → ∃ a', f a b = Ok a' ∧ I a') →
  ∃ a', foldlM f l a = Ok a' ∧ I a'.
Proof.
  revert a. induction l as [|b l IH]; intros a Ha Hstep; [by exists a|].
  destruct (Hstep a b) as (a' & Hf & Ha'); [by left|done|].
  cbn [foldlM]. rewrite Hf. cbn [mbind res_bind].
  apply IH; [done|]. intros a0 b0 Hb0. apply Hstep. by right.
Qed.

(** *** Strings *)

Lemma append_char_nonempty s c : s +:+ String c "" ≠ "".
Proof. destruct s; [by rewrite append_nil_l | by rewrite append_cons]. Qed.

Lemma split_ws_go_nonempty cur s :
  cur ≠ "" ∨ all_chars is_space s = false → split_ws_go cur s ≠ [].
Proof.
  revert cur. induction s as [|c s IH]; intros cur Hsome; cbn [split_ws_go].
  - destruct Hsome as [Hcur|?]; [|done].
    by destruct (String.eqb_spec cur "").
  - destruct (is_space c) eqn:Hc.
    + destruct (String.eqb_spec cur "") as [->|Hcur]; [|done].
      destruct Hsome as [?|Hs]; [done|]. cbn [all_chars] in Hs. rewrite Hc in Hs.
      rewrite app_nil_l. apply IH. by right.
    + apply IH. left. apply append_char_nonempty.
Qed.

Lemma rev_app_ends_well s acc :
  acc ≠ "" → ends_well (String.rev_app s acc) = ends_well acc.
Proof.
  revert acc. induction s as [|c s IH]; intros acc Hacc; [done|].
  cbn [String.rev_app]. rewrite IH by done. by destruct acc.
Qed.

Lemma rev_app_length s acc :
  String.length (String.rev_app s acc) = String.length s + String.length acc.
Proof.
  revert acc. induction s as [|c s IH]; intros acc; [done|].
  cbn [String.rev_app]. rewrite IH. simpl. lia.
Qed.

Lemma lstrip_with_head p s :
  lstrip_with p s = "" ∨ ∃ c t, lstrip_with p s = String c t ∧ p c = false.
Proof.
  induction s as [|c s IH]; [by left|]. cbn [lstrip_with].
  destruct (p c) eqn:Hc; [done|]. right. eauto.
Qed.

Lemma lstrip_with_length p s : String.length (lstrip_with p s) ≤ String.length s.
Proof.
  induction s as [|c s IH]; [done|]. cbn [lstrip_with].
  destruct (p c); simpl in *; lia.
Qed.

Lemma strip_ends_well s : ends_well (strip s) = true.
Proof.
  unfold strip, strip_with, String.rev.
  destruct (lstrip_with_head is_space (String.rev_app (lstrip_with is_space s) ""))
    as [->|(c & t & -> & Hc)]; [done|].
  cbn [String.rev_app]. rewrite rev_app_ends_well by done. simpl. by rewrite Hc.
Qed.

Lemma strip_with_length p s : String.length (strip_with p s) ≤ String.length s.
Proof.
  unfold strip_with, String.rev. rewrite rev_app_length. simpl.
  etrans; [|apply (lstrip_with_length p s)].
  etrans; [|erewrite <- (Nat.add_0_r (String.length (lstrip_with p s)));
            by rewrite <- (rev_app_length _ "")].
  pose proof (lstrip_with_length p (String.rev_app (lstrip_with p s) "")). lia.
Qed.

Lemma ends_well_nonspace s :
  ends_well s = true → s ≠ "" → all_chars is_space s = false.
Proof.
  induction s as [|c s IH]; intros Hs Hne; [done|]. cbn [all_chars].
  destruct s as [|c' s'].
  - simpl in Hs. by destruct (is_space c).
  - rewrite IH by done. apply andb_false_r.
Qed.

Lemma ends_well_drop k s : ends_well s = true → ends_well (drop k s) = true.
Proof.
  revert s. induction k as [|k IH]; intros s Hs; [by destruct s|].
  destruct s as [|c s]; [done|]. cbn [drop]. apply IH. by destruct s.
Qed.

Lemma drop_lower k s : drop k (lower s) = lower (drop k s).
Proof.
  revert s. induction k as [|k IH]; intros s; [by destruct s|].
  destruct s as [|c s]; [done|]. apply IH.
Qed.

Lemma drop_drop k n s : drop (k + n) s = drop n (drop k s).
Proof.
  revert s. induction k as [|k IH]; intros s; [by destruct s|].
  destruct s as [|c s]; [by destruct n|]. apply IH.
Qed.

Lemma take_length n s : String.length (take n s) ≤ n.
Proof.
  revert s. induction n as [|n IH]; intros s; [by destruct s|].
  destruct s as [|c s]; simpl; [lia|]. specialize (IH s). lia.
Qed.

Lemma lower_char_space c : is_space (lower_char c) = is_space c.
Proof. by destruct c as [[] [] [] [] [] [] [] []]. Qed.

Lemma upper_char_alpha c : is_alpha (upper_char c) = is_alpha c.
Proof. by destruct c as [[] [] [] [] [] [] [] []]. Qed.

Lemma lower_char_alpha c : is_alpha (lower_char c) = is_alpha c.
Proof. by destruct c as [[] [] [] [] [] [] [] []]. Qed.

Lemma upper_char_upper c : upper_char (upper_char c) = upper_char c.
Proof. by destruct c as [[] [] [] [] [] [] [] []]. Qed.

Lemma lower_length s : String.length (lower s) = String.length s.
Proof. induction s as [|c s IH]; [done|]. simpl. by rewrite IH. Qed.

Lemma lower_alpha s : all_chars is_alpha (lower s) = all_chars is_alpha s.
Proof.
  induction s as [|c s IH]; [done|]. simpl. by rewrite lower_char_alpha, IH.
Qed.

Lemma capitalize_shaped s :
  isalpha s = true → 1 < String.length s → name_shaped (capitalize s).
Proof.
  destruct s as [|c s]; [done|]. intros Halpha Hlen. unfold name_shaped.
  cbn [capitalize isalpha all_chars String.length] in *.
  rewrite upper_char_alpha, lower_alpha, lower_length, upper_char_upper, lower_lower.
  split; [done|]. split; [lia|done].
Qed.

(** The first place of a substring. *)
Lemma find_from_spec needle hay i :
  contains needle hay = true →
  ∃ k, find_from i needle hay = (i + Z.of_nat k)%Z ∧
       String.prefix needle (drop k hay) = true.
Proof.
  revert i. induction hay as [|c hay IH]; intros i; cbn [contains find_from].
  - destruct (String.prefix needle "") eqn:Hp; [|done].
    intros _. exists 0. split; [lia|done].
  - destruct (String.prefix needle (String c hay)) eqn:Hp.
    + intros _. exists 0. split; [lia|done].
    + intros (k & Hk & Hpre)%(IH (i + 1)%Z). exists (S k). split; [lia|done].
Qed.

Lemma prefix_nonempty c p s : String.prefix (String c p) s = true → s ≠ "".
Proof. by destruct s. Qed.

(** Behind a phrase that ends in a blank, a text that does not end in
    white space goes on with a word. *)
Lemma word_after_phrase phrase s :
  ends_well phrase = false → ends_well s = true →
  String.prefix phrase (lower s) = true →
  all_chars is_space (drop (String.length phrase) s) = false.
Proof.
  revert s. induction phrase as [|a phrase IH]; intros s Hphrase Hs Hpre; [done|].
  destruct s as [|c s]; [done|]. cbn [lower String.prefix] in Hpre.
  destruct (ascii_dec a (lower_char c)) as [->|]; [|done].
  cbn [String.length drop]. destruct phrase as [|b phrase].
  - cbn [String.length drop]. simpl in Hphrase.
    rewrite lower_char_space in Hphrase. destruct s as [|c' s'].
    + simpl in Hs. by destruct (is_space c).
    + by apply ends_well_nonspace.
  - apply IH; [done| |done].
    apply prefix_nonempty in Hpre. by destruct s.
Qed.

Lemma split_sep_go_nonempty sep skip cur s : split_sep_go sep skip cur s ≠ [].
Proof.
  revert skip cur. induction s as [|c s IH]; intros skip cur; cbn [split_sep_go]; [done|].
  destruct skip; [|by apply IH]. by destruct (String.prefix sep (String c s)).
Qed.

Lemma split_sep_go_length sep skip cur s piece :
  piece ∈ split_sep_go sep skip cur s →
  String.length piece ≤ String.length cur + String.length s.
Proof.
  revert skip cur. induction s as [|c s IH]; intros skip cur; cbn [split_sep_go].
  - intros ->%list_elem_of_singleton. lia.
  - destruct skip as [|skip].
    + destruct (String.prefix sep (String c s)).
      * intros [->|Hin%IH]%elem_of_cons; simpl in *; lia.
      * intros Hin%IH. rewrite string_length_append in Hin. simpl in *. lia.
    + intros Hin%IH. simpl. lia.
Qed.

(** *** The steps of the extraction *)

Lemma name_step_ok text found phrase :
  phrase ∈ name_phrases →
  (∀ n, found = Some n → name_shaped n) →
  ∃ found',
    name_step (strip text) (lower (strip text)) found phrase = Ok found' ∧
    (∀ n, found' = Some n → name_shaped n).
Proof.
  intros Hphrase Hfound. unfold name_step.
  destruct (contains phrase (lower (strip text))) eqn:Hin; [|by exists found].
  destruct (find_from_spec _ _ 0%Z Hin) as (k & Hk & Hpre).
  unfold find. rewrite Hk. unfold slice_from.
  destruct (Z.ltb_spec (0 + Z.of_nat k + Z.of_nat (String.length phrase)) 0); [lia|].
  replace (Z.to_nat (0 + Z.of_nat k + Z.of_nat (String.length phrase)))
    with (k + String.length phrase) by lia.
  rewrite drop_drop. rewrite drop_lower in Hpre.
  assert (all_chars is_space (drop (String.length phrase) (drop k (strip text))) = false)
    as Hword.
  { apply word_after_phrase; [|by apply ends_well_drop, strip_ends_well|done].
    unfold name_phrases in Hphrase.
    repeat (apply elem_of_cons in Hphrase as [->|Hphrase]; [done|]).
    by apply elem_of_nil in Hphrase. }
  unfold split_ws.
  destruct (split_ws_go "" (drop (String.length phrase) (drop k (strip text))))
    as [|word words] eqn:Hsplit.
  { exfalso. eapply split_ws_go_nonempty; [|exact Hsplit]. by right. }
  cbn [list_index lookup list_lookup mbind res_bind].
  destruct (truthy (strip_chars word ". ,!?") && isalpha (strip_chars word ". ,!?")
            && (1 <? String.length (strip_chars word ". ,!?"))) eqn:Hguard;
    [|by exists found].
  eexists. split; [done|]. intros n [= <-].
  apply andb_prop in Hguard as [[_ Halpha]%andb_prop Hlen%Nat.ltb_lt].
  by apply capitalize_shaped.
Qed.

Lemma fact_step_ok content_lower facts keyword :
  (∀ fact, fact ∈ facts → fact_shaped fact) →
  ∃ facts',
    fact_step content_lower facts keyword = Ok facts' ∧
    (∀ fact, fact ∈ facts' → fact_shaped fact).
Proof.
  intros Hfacts. unfold fact_step.
  destruct (contains keyword content_lower); [|by exists facts].
  destruct (split_sep content_lower keyword) as [|p0 [|part parts]];
    [by exists facts..|].
  replace (1 <? length (p0 :: part :: parts)) with true by done.
  cbn [list_index lookup list_lookup mbind res_bind].
  destruct (split_sep (strip (take 50 part)) ".") as [|first pieces] eqn:Hsplit.
  { exfalso. by eapply split_sep_go_nonempty. }
  cbn [list_index lookup list_lookup mbind res_bind].
  destruct (truthy (strip first) && (2 <? String.length (strip first))) eqn:Hguard;
    [|by exists facts].
  eexists. split; [done|].
  intros fact [->%elem_of_singleton|Hin]%elem_of_union; [|by apply Hfacts].
  apply andb_prop in Hguard as [_ Hlen%Nat.ltb_lt]. split; [lia|].
  etrans; [apply strip_with_length|].
  assert (first ∈ split_sep (strip (take 50 part)) ".") as Hfirst
    by (rewrite Hsplit; by left).
  apply split_sep_go_length in Hfirst. cbn [String.length Nat.add] in Hfirst.
  etrans; [exact Hfirst|]. etrans; [apply strip_with_length|]. apply take_length.
Qed.

Lemma extract_user_turn_ok acc text :
  shaped acc → ∃ acc', extract_user_turn acc text = Ok acc' ∧ shaped acc'.
Proof.
  intros (Hname & Hints & Hskls). unfold extract_user_turn.
  destruct (foldlM_invariant (name_step (strip text) (lower (strip text)))
              (fun found => ∀ n, found = Some n → name_shaped n)
              name_phrases (extracted_preferred_name acc))
    as (name & -> & Hname'); [done| |].
  { intros found phrase Hphrase Hfound. by apply name_step_ok. }
  destruct (foldlM_invariant (fact_step (lower (strip text)))
              (fun facts => ∀ fact, fact ∈ facts → fact_shaped fact)
              interest_keywords (default ∅ (extracted_interests acc)))
    as (ints & -> & Hints'); [done| |].
  { intros facts keyword _ Hfacts. by apply fact_step_ok. }
  destruct (foldlM_invariant (fact_step (lower (strip text)))
              (fun facts => ∀ fact, fact ∈ facts → fact_shaped fact)
              skill_keywords (default ∅ (extracted_skills acc)))
    as (skls & -> & Hskls'); [done| |].
  { intros facts keyword _ Hfacts. by apply fact_step_ok. }
  eexists. split; [done|]. by split; [|split].
Qed.

(** X27. On a conversation of ASCII text the extraction raises nothing:
    neither [split()[0]] behind a name phrase nor [parts[1]] and
    [split('.')[0]] behind a keyword go beyond their list. A name it finds
    is made of letters only, two at least, the first in upper and the rest
    in lower case; an interest or a skill it finds has between 3 and 50
    characters. *)
Theorem extraction_never_fails self conversation_history :
  ∃ e, extract_from_conversation self conversation_history = Ok e ∧ shaped e.
Proof.
  unfold extract_from_conversation.
  apply foldlM_invariant.
  - split; [done|]. split; intros fact Hin; simpl in Hin; by apply elem_of_empty in Hin.
  - intros acc msg _ Hacc. unfold extract_step.
    destruct (String.eqb (role msg) "user"); [by apply extract_user_turn_ok|].
    by exists acc.
Qed.

End ExtractionMore.
